(** * SUAVE: the LiNiMnCo battery charge model

    A shallow embedding of
    [trunk/SUAVE/Methods/Power/Battery/Charge_Models/LiNiMnCo_charge.py]:
    [LiNiMnCo_charge], [compute_thevenin_votlage] and [model].

    Numbers.  The source computes on numpy [float64] arrays.  The embedding
    keeps the special values of IEEE arithmetic (nan, -inf, +inf) with the
    rules numpy applies to them, and computes on finite values exactly, as
    rationals: rounding and overflow are left out, and zero carries no sign.
    Arrays of shape (N,1) are lists, the integration operator is a list of
    rows.  Library routines the source calls but does not define
    ([np.exp], [np.log], [np.sqrt], powers with a fractional exponent,
    [scipy.integrate.odeint], the unit [Units.hr]) are parameters of the
    model. *)

From Stdlib Require Import QArith Qabs Qround ZArith List Bool Lia Lqa Sorted.
Import ListNotations.

Set Implicit Arguments.

(** ** numpy scalars *)

Module NP.

Inductive npfloat : Type :=
| NaN
| NInf
| Fin (q : Q)
| PInf.

Coercion Fin : Q >-> npfloat.

Definition of_Z (z : Z) : npfloat := Fin (inject_Z z).

(** A Python [bool] used as a number: [True] is 1, [False] is 0. *)
Definition of_bool (b : bool) : npfloat := Fin (if b then 1 else 0).

Definition Qsign (q : Q) : comparison := (Qnum q ?= 0)%Z.

Definition Qlt_bool (a b : Q) : bool := negb (Qle_bool b a).

Definition inf_of_sign (c : comparison) : npfloat :=
  match c with
  | Gt => PInf
  | Lt => NInf
  | Eq => NaN
  end.

Definition is_nan (x : npfloat) : bool :=
  match x with
  | NaN => true
  | _ => false
  end.

Definition fneg (x : npfloat) : npfloat :=
  match x with
  | NaN => NaN
  | NInf => PInf
  | Fin q => Fin (- q)
  | PInf => NInf
  end.

Definition fabs (x : npfloat) : npfloat :=
  match x with
  | NaN => NaN
  | NInf | PInf => PInf
  | Fin q => Fin (Qabs q)
  end.

Definition fadd (x y : npfloat) : npfloat :=
  match x, y with
  | NaN, _ | _, NaN => NaN
  | PInf, NInf | NInf, PInf => NaN
  | PInf, _ | _, PInf => PInf
  | NInf, _ | _, NInf => NInf
  | Fin a, Fin b => Fin (a + b)
  end.

Definition fsub (x y : npfloat) : npfloat := fadd x (fneg y).

Definition fmul (x y : npfloat) : npfloat :=
  match x, y with
  | NaN, _ | _, NaN => NaN
  | Fin a, Fin b => Fin (a * b)
  | Fin a, PInf | PInf, Fin a => inf_of_sign (Qsign a)
  | Fin a, NInf | NInf, Fin a => inf_of_sign (CompOpp (Qsign a))
  | PInf, PInf | NInf, NInf => PInf
  | PInf, NInf | NInf, PInf => NInf
  end.

(** [x / 0] is an infinity of the sign of [x], and nan for [0 / 0]. *)
Definition fdiv (x y : npfloat) : npfloat :=
  match x, y with
  | NaN, _ | _, NaN => NaN
  | Fin a, Fin b =>
      if Qeq_bool b 0 then inf_of_sign (Qsign a) else Fin (a / b)
  | Fin _, (PInf | NInf) => Fin 0
  | (PInf | NInf), (PInf | NInf) => NaN
  | PInf, Fin b => match Qsign b with Lt => NInf | _ => PInf end
  | NInf, Fin b => match Qsign b with Lt => PInf | _ => NInf end
  end.

(** Comparisons: every comparison with nan is [False]. *)
Definition fltb (x y : npfloat) : bool :=
  match x, y with
  | NaN, _ | _, NaN => false
  | _, NInf => false
  | NInf, _ => true
  | PInf, _ => false
  | Fin _, PInf => true
  | Fin a, Fin b => Qlt_bool a b
  end.

Definition fgtb (x y : npfloat) : bool := fltb y x.

Definition fleb (x y : npfloat) : bool :=
  match x, y with
  | NaN, _ | _, NaN => false
  | NInf, _ => true
  | _, PInf => true
  | _, NInf => false
  | PInf, _ => false
  | Fin a, Fin b => Qle_bool a b
  end.

(** Truth value of a number ([bool(x)]): false for zero only; nan is true. *)
Definition truthy (x : npfloat) : bool :=
  match x with
  | Fin q => negb (Qeq_bool q 0)
  | _ => true
  end.

(** [x ** n] for a literal natural exponent. *)
Fixpoint fpow (x : npfloat) (n : nat) : npfloat :=
  match n with
  | O => Fin 1
  | S n' => fmul x (fpow x n')
  end.

(** [np.maximum]: the larger of two numbers, nan when either is nan. *)
Definition maximum (a b : npfloat) : npfloat :=
  if is_nan a then a else if is_nan b then b else if fltb a b then b else a.

Declare Scope np_scope.
Delimit Scope np_scope with np.
Bind Scope np_scope with npfloat.
Infix "+" := fadd : np_scope.
Infix "-" := fsub : np_scope.
Infix "*" := fmul : np_scope.
Infix "/" := fdiv : np_scope.
Notation "- x" := (fneg x) : np_scope.
Infix "<?" := fltb : np_scope.
Infix ">?" := fgtb (at level 70, no associativity) : np_scope.
Infix "<=?" := fleb : np_scope.
Infix "**" := fpow (at level 30, right associativity) : np_scope.

(** *** Arrays *)

Definition vec := list npfloat.

Fixpoint map2 {A B C : Type} (f : A -> B -> C) (l : list A) (m : list B)
  : list C :=
  match l, m with
  | a :: l', b :: m' => f a b :: map2 f l' m'
  | _, _ => []
  end.

(** [a[cond(a)] = v], the masked assignment of an array under a condition on
    its own entries. *)
Definition assign_where (cond : npfloat -> bool) (v : npfloat) (a : vec) : vec :=
  map (fun x => if cond x then v else x) a.

(** [a[mask] = v] for a mask computed from another array of the same shape. *)
Fixpoint assign_mask (mask : list bool) (v : npfloat) (a : vec) : vec :=
  match a, mask with
  | x :: a', b :: mask' => (if b then v else x) :: assign_mask mask' v a'
  | _, _ => a
  end.

(** The inner product of a row of the operator with a column. *)
Definition dot_row (r v : vec) : npfloat :=
  fold_left fadd (map2 fmul r v) (Fin 0).

(** [np.dot(I, v)] for a matrix [I] (a list of rows) and a column [v]. *)
Definition dot (I : list vec) (v : vec) : vec :=
  map (fun r => dot_row r v) I.

(** [np.isnan(a).any()] *)
Definition isnan_any (a : vec) : bool := existsb is_nan a.

(** [a.any()]: some entry is true. *)
Definition any (a : vec) : bool := existsb truthy a.

(** Python's builtin [all] over the rows of an (N,1) array: every row is
    true, and a one-entry row is true when its entry is. *)
Definition py_all (a : vec) : bool := forallb truthy a.

(** [np.max(a)]: nan as soon as one entry is nan.  On an empty array numpy
    raises; the source calls it only on an array that holds a nan. *)
Definition np_max (a : vec) : npfloat :=
  match a with
  | [] => NaN
  | x :: a' => fold_left maximum a' x
  end.

Definition ones_like (a : vec) : vec := map (fun _ => Fin 1) a.
Definition zeros_like (a : vec) : vec := map (fun _ => Fin 0) a.

(** [np.diff(x)] *)
Fixpoint diff (x : vec) : vec :=
  match x with
  | a :: (b :: _) as x' => fsub b a :: diff x'
  | _ => []
  end.

(** [y[1:] + y[:-1]] *)
Fixpoint adjacent_sums (y : vec) : vec :=
  match y with
  | a :: (b :: _) as y' => fadd b a :: adjacent_sums y'
  | _ => []
  end.

(** [np.cumsum(a)], with the running total [acc] of the entries before. *)
Fixpoint cumsum_from (acc : npfloat) (a : vec) : vec :=
  match a with
  | [] => []
  | x :: a' => fadd acc x :: cumsum_from (fadd acc x) a'
  end.

Definition cumsum (a : vec) : vec :=
  match a with
  | [] => []
  | x :: a' => x :: cumsum_from x a'
  end.

(** [scipy.integrate.cumtrapz(y, x = x)]:
    [np.cumsum(d * (y[1:] + y[:-1]) / 2.0)] with [d = np.diff(x)]. *)
Definition cumtrapz (y x : vec) : vec :=
  cumsum (map (fun p => fdiv p (Fin 2)) (map2 fmul (diff x) (adjacent_sums y))).

End NP.

Import NP.
Open Scope Q_scope.
Open Scope np_scope.

(** ** The battery object and the numerics *)

(** [battery.cell] *)
Module Cell.
Record t : Type := {
  mass : npfloat;
  electrode_area : npfloat;
  specific_heat_capacity : npfloat;
  surface_area : npfloat;
  diameter : npfloat;
  height : npfloat
}.
End Cell.

(** [battery.pack_config] *)
Module PackConfig.
Record t : Type := {
  series : Z;
  parallel : Z
}.
End PackConfig.

(** [battery.module_config] *)
Module ModuleConfig.
Record t : Type := {
  normal_count : Z;
  parallel_count : Z;
  normal_spacing : npfloat;
  parallel_spacing : npfloat
}.
End ModuleConfig.

(** [battery.cooling_fluid]; the two fits are callables applied entry by
    entry. *)
Module CoolingFluid.
Record t : Type := {
  thermal_conductivity : npfloat;
  specific_heat_capacity : npfloat;
  discharge_air_cooling_flowspeed : npfloat;
  density : npfloat;
  kinematic_viscosity_fit : npfloat -> npfloat;
  prandlt_number_fit : npfloat -> npfloat
}.
End CoolingFluid.

(** [battery.inputs] *)
Module Inputs.
Record t : Type := {
  current : vec;
  power_in : vec
}.
End Inputs.

(** [battery.discharge_performance_map]: the response surface, a callable
    from an (N,3) array of points to an array with one row per point. *)
Module PerformanceMap.
Record t : Type := {
  Voltage : list vec -> list vec
}.
End PerformanceMap.

(** The attributes of [battery] that [LiNiMnCo_charge] reads or writes.
    [ambient_temperature] is a column, one entry per collocation point (the
    multi-cell branch iterates over a quantity computed from it). *)
Record Battery : Type := {
  inputs : Inputs.t;
  cell : Cell.t;
  pack_config : PackConfig.t;
  module_config : ModuleConfig.t;
  cooling_fluid : CoolingFluid.t;
  discharge_performance_map : PerformanceMap.t;
  heat_transfer_coefficient : npfloat;
  ambient_temperature : vec;
  initial_thevenin_voltage : npfloat;
  max_energy : npfloat;
  R_growth_factor : npfloat;
  temperature : vec;
  charge_throughput : vec;
  current_energy : vec;
  cell_temperature : vec;
  pack_temperature : vec;
  cell_joule_heat_fraction : vec;
  cell_entropy_heat_fraction : vec;
  resistive_losses : vec;
  load_power : vec;
  current : vec;
  voltage_open_circuit : vec;
  cell_voltage_open_circuit : vec;
  cell_current : vec;
  thevenin_voltage : vec;
  cumulative_cell_charge_throughput : vec;
  cell_charge_throughput : vec;
  heat_energy_generated : vec;
  internal_resistance : vec;
  state_of_charge : vec;
  depth_of_discharge : vec;
  voltage_under_load : vec;
  cell_voltage_under_load : vec
}.

(** [numerics.time] *)
Module Time.
Record t : Type := {
  integrate : list vec;
  control_points : vec
}.
End Time.

Record Numerics : Type := {
  time : Time.t
}.

(** An exception of the source ([IndexError] on the first entry of an empty
    array) is [None]. *)
Definition bind {A B : Type} (o : option A) (k : A -> option B) : option B :=
  match o with
  | Some a => k a
  | None => None
  end.

Notation "x <- o ;; k" := (bind o (fun x => k))
  (at level 61, o at next level, right associativity).

(** [a[0]] *)
Definition first (a : vec) : option npfloat := hd_error a.

Fixpoint map3 {A B C D : Type} (f : A -> B -> C -> D)
  (l : list A) (m : list B) (k : list C) : list D :=
  match l, m, k with
  | a :: l', b :: m', c :: k' => f a b c :: map3 f l' m' k'
  | _, _, _ => []
  end.

(** ** The model *)

Section Model.

(** Library routines, as parameters: [np.sqrt], [np.exp], [np.log], [x ** y]
    with a fractional exponent, [np.pi], [scipy.integrate.odeint] for an
    equation in one unknown (the right-hand side [f z t], the initial value,
    the times; the solution at every time), and [Units.hr]. *)
Variables np_sqrt np_exp np_log : npfloat -> npfloat.
Variable np_power : npfloat -> npfloat -> npfloat.
Variable np_pi : npfloat.
Variable odeint : (npfloat -> npfloat -> npfloat) -> npfloat -> vec -> vec.
Variable Units_hr : npfloat.

(** [model(z,t,I_cell,C_Th,R_Th)]: the right-hand side of the Thevenin
    equation. *)
Definition model (z t I_cell C_Th R_Th : npfloat) : npfloat :=
  I_cell / C_Th - (z / (R_Th * C_Th)).

(** [compute_thevenin_votlage(V_th0,I_cell,C_Th,R_Th,numerics)].  [x[0]] of
    an empty [x] raises, hence [None] without control points; an entry of
    [I_cell], [C_Th], [R_Th] or [z] that is not there reads as nan. *)
Definition compute_thevenin_votlage (V_th0 : npfloat) (I_cell C_Th R_Th : vec)
  (numerics : Numerics) : option vec :=
  let t := Time.control_points (time numerics) in
  let n := length t in
  match n with
  | O => None
  | S _ =>
      Some (V_th0 ::
            map (fun i =>
                   let z := odeint (fun z t' =>
                                      model z t' (nth i I_cell NaN)
                                        (nth i C_Th NaN) (nth i R_Th NaN))
                              V_th0 t in
                   let z0 := nth 1 z NaN in
                   z0)
                (seq 1 (n - 1)))
  end.

Section Body.

Variable battery : Battery.
Variable numerics : Numerics.

(** The first entries [E_current[0]], [T_current[0]] and [Q_prior[0]] of the
    prior state. *)
Variables E_current_0 T_current_0 Q_prior_0 : npfloat.

(** Unpack variables *)
Definition I_bat : vec := Inputs.current (inputs battery).
Definition P_bat : vec := Inputs.power_in (inputs battery).
Definition cell_mass : npfloat := Cell.mass (cell battery).
Definition electrode_area : npfloat := Cell.electrode_area (cell battery).
Definition Cp : npfloat := Cell.specific_heat_capacity (cell battery).
Definition As_cell : npfloat := Cell.surface_area (cell battery).
Definition D_cell : npfloat := Cell.diameter (cell battery).
Definition H_cell : npfloat := Cell.height (cell battery).
Definition T_ambient : vec := ambient_temperature battery.
Definition T_current : vec := temperature battery.
Definition E_max : npfloat := max_energy battery.
Definition I : list vec := Time.integrate (time numerics).

Definition n_series : Z := PackConfig.series (pack_config battery).
Definition n_parallel : Z := PackConfig.parallel (pack_config battery).
Definition n_total : Z := (n_series * n_parallel)%Z.
Definition Nn : Z := ModuleConfig.normal_count (module_config battery).
Definition Np : Z := ModuleConfig.parallel_count (module_config battery).
Definition n_total_module : Z := (Nn * Np)%Z.

(** [I_cell = -I_bat/n_parallel], before it is limited *)
Definition I_cell0 : vec := map (fun i => (- i) / of_Z n_parallel) I_bat.

(** State of charge of the battery *)
Definition initial_discharge_state : vec :=
  map (fun e => e + E_current_0) (dot I P_bat).

Definition SOC_old0 : vec := map (fun e => e / E_max) initial_discharge_state.

(** [SOC_old[SOC_old < 0.] = 0.] then [SOC_old[SOC_old > 1.] = 1.] *)
Definition SOC_old : vec :=
  assign_where (fun s => s >? 1) 1 (assign_where (fun s => s <? 0) 0 SOC_old0).

Definition DOD_old : vec := map (fun s => 1 - s) SOC_old.

(** [T_cell[T_cell<272.65] = 272.65] then [T_cell[T_cell>322.65] = 322.65].
    The assignments write into the array [battery.cell_temperature] itself;
    the attribute is bound to a new array when the outputs are packed, and
    [battery.temperature], from which [T_current[0]] is read, is taken as an
    array of its own. *)
Definition T_cell : vec :=
  assign_where (fun T => T >? 322.65) 322.65
    (assign_where (fun T => T <? 272.65) 272.65 (cell_temperature battery)).

(** Determine temperature increase *)
Definition sigma : npfloat := 139.
Definition F : npfloat := 96485.

Definition delta_S : vec :=
  map (fun s => (-496.66)%Q * s ** 6 + 1729.4 * s ** 5 + (-2278)%Q * s ** 4
                + 1382.2 * s ** 3 + (-380.47)%Q * s ** 2 + 46.508 * s
                + (-10.692)%Q)
      SOC_old.

Definition i_cell : vec := map (fun i => i / electrode_area) I_cell0.

(** [-(T_cell)*delta_S*i_cell/(n*F)] with [n = 1] *)
Definition q_dot_entropy : vec :=
  map3 (fun T dS i => (- T) * dS * i / (1 * F)) T_cell delta_S i_cell.

Definition q_dot_joule : vec := map (fun i => i ** 2 / sigma) i_cell.

Definition Q_heat_gen : vec :=
  map2 (fun j e => (j + e) * As_cell) q_dot_joule q_dot_entropy.

Definition q_joule_frac : vec :=
  map2 (fun j e => j / (j + e)) q_dot_joule q_dot_entropy.

Definition q_entropy_frac : vec :=
  map2 (fun j e => e / (j + e)) q_dot_joule q_dot_entropy.

(** The lumped model of a single cell ([n_total == 1]) *)
Definition P_net_lumped : vec :=
  let h := heat_transfer_coefficient battery in
  let Q_convec := map2 (fun Tc Ta => h * As_cell * (Tc - Ta)) T_cell T_ambient in
  let P_net := map2 fsub Q_heat_gen Q_convec in
  map (fun p => p * of_Z n_total) P_net.

(** The bank of cells in cross flow *)
Definition S_T : npfloat := ModuleConfig.normal_spacing (module_config battery).
Definition S_L : npfloat := ModuleConfig.parallel_spacing (module_config battery).
Definition K_air : npfloat := CoolingFluid.thermal_conductivity (cooling_fluid battery).
Definition Cp_air : npfloat := CoolingFluid.specific_heat_capacity (cooling_fluid battery).
Definition V_air : npfloat :=
  CoolingFluid.discharge_air_cooling_flowspeed (cooling_fluid battery).
Definition rho_air : npfloat := CoolingFluid.density (cooling_fluid battery).
Definition nu_fit : npfloat -> npfloat :=
  CoolingFluid.kinematic_viscosity_fit (cooling_fluid battery).
Definition Pr_fit : npfloat -> npfloat :=
  CoolingFluid.prandlt_number_fit (cooling_fluid battery).

Definition S_D : npfloat := np_sqrt (S_T ** 2 + S_L ** 2).

Definition V_max : npfloat :=
  if 2 * (S_D - D_cell) <? (S_T - D_cell)
  then V_air * (S_T / (2 * (S_D - D_cell)))
  else V_air * (S_T / (S_T - D_cell)).

Definition T : vec := map2 (fun Ta Tc => (Ta + Tc) / 2) T_ambient T_current.
Definition nu_air : vec := map (fun Ta => nu_fit (Ta - 272.65)) T_ambient.
Definition Re_max : vec := map (fun nu => V_max * D_cell / nu) nu_air.
Definition Pr : vec := map (fun Ta => Pr_fit (Ta - 272.65)) T_ambient.
Definition Prw : vec := map (fun T' => Pr_fit (T' - 272.65)) T.

(** [if all(Re_max) > 10E2: C, m = 0.35*((S_T/S_L)**0.2), 0.6
     else: C, m = 0.51, 0.5]: the builtin [all] gives a [bool], which is then
    compared with 1000. *)
Definition correlation_constants (S_T S_L : npfloat) (Re_max : vec)
  : npfloat * npfloat :=
  if of_bool (py_all Re_max) >? 10e2
  then (0.35 * np_power (S_T / S_L) 0.2, Fin 0.6)
  else (Fin 0.51, Fin 0.5).

Definition P_net_bank : vec :=
  let (C, m) := correlation_constants S_T S_L Re_max in
  let Nu := map3 (fun Re Pr' Prw' =>
                    C * np_power Re m * np_power Pr' 0.36
                    * np_power (Pr' / Prw') 0.25)
                 Re_max Pr Prw in
  let h := map (fun Nu' => Nu' * K_air / D_cell) Nu in
  let Tw_Ti := map2 fsub T T_ambient in
  let Tw_To :=
    map2 (fun ti h' =>
            ti * np_exp ((- np_pi) * D_cell * of_Z n_total_module * h'
                         / (rho_air * V_air * of_Z Nn * S_T * Cp_air)))
         Tw_Ti h in
  let dT_lm := map2 (fun ti to => (ti - to) / np_log (ti / to)) Tw_Ti Tw_To in
  let Q_convec :=
    map2 (fun h' dT => h' * np_pi * D_cell * H_cell * 0.8
                       * of_Z n_total_module * dT) h dT_lm in
  map2 (fun Q Qc => Q * of_Z n_total_module - Qc) Q_heat_gen Q_convec.

Definition P_net : vec :=
  if (n_total =? 1)%Z then P_net_lumped else P_net_bank.

Definition dT_dt : vec :=
  map (fun p => p / (cell_mass * of_Z n_total_module * Cp)) P_net.

(** [T_current = T_current[0] + np.dot(I,dT_dt)] *)
Definition T_current_new : vec := map (fun d => T_current_0 + d) (dot I dT_dt).

(** Power going into the battery accounting for resistance losses *)
Definition P_loss : vec := map (fun q => of_Z n_total * q) Q_heat_gen.
Definition P : vec := map2 (fun p l => p - fabs l) P_bat P_loss.

(** [I_cell[I_cell<0.0] = 0.0] then [I_cell[I_cell>8.0] = 8.0] *)
Definition I_cell : vec :=
  assign_where (fun i => i >? 8) 8 (assign_where (fun i => i <? 0) 0 I_cell0).

(** The conditions for the battery data sheet response surface *)
Definition T_cell_Celcius : vec := map (fun T' => T' - 272.65) T_cell.

Definition pts : list vec :=
  map2 (fun p d => p ++ [d]) (map2 (fun i T' => [i; T']) I_cell T_cell_Celcius)
       DOD_old.

(** [V_ul = np.atleast_2d(battery_data.Voltage(pts)[:,1]).T], before line 241 *)
Definition V_ul0 : vec :=
  map (fun row => nth 1 row NaN)
      (PerformanceMap.Voltage (discharge_performance_map battery) pts).

(** Thevenin time constant, resistance and capacitance *)
Definition tau_Th : vec := map (fun s => 2.151 * np_exp (2.132 * s) + 27.2) SOC_old.
Definition R_Th : vec :=
  map (fun s => (-1.212)%Q * np_exp ((-0.03383)%Q * s) + 1.258) SOC_old.
Definition C_Th : vec := map2 fdiv tau_Th R_Th.

(** Li-ion battery internal resistance, and its aged value *)
Definition R_0 : vec :=
  map (fun s => 0.01483 * (s ** 2) - 0.02518 * s + 0.1036) SOC_old.
Definition R_0_aged : vec := map (fun r => r * R_growth_factor battery) R_0.

(** Thevenin equivalent voltage *)
Definition V_th0 : npfloat := initial_thevenin_voltage battery / of_Z n_series.
Definition V_Th : option vec :=
  compute_thevenin_votlage V_th0 I_cell C_Th R_Th numerics.

(** [V_oc = V_ul + V_Th + (I_cell * R_0_aged)] *)
Definition V_oc (V_Th : vec) : vec :=
  map2 fadd (map2 fadd V_ul0 V_Th) (map2 fmul I_cell R_0_aged).

(** The energy going into the battery, before and after the nan handling *)
Definition E_bat0 : vec := dot I P.

Definition sanitize (E_bat : vec) : vec :=
  if isnan_any E_bat then
    let E_bat' := map (fun o => o * np_max E_bat) (ones_like E_bat) in
    if is_nan (of_bool (any E_bat')) then zeros_like E_bat' else E_bat'
  else E_bat.

Definition E_bat : vec := sanitize E_bat0.

(** [E_current = E_bat + E_current[0]], then [E_current[E_current>E_max] = E_max] *)
Definition E_current_sum : vec := map (fun e => e + E_current_0) E_bat.
Definition E_current : vec :=
  assign_where (fun e => e >? E_max) E_max E_current_sum.

(** New state of charge *)
Definition SOC_new0 : vec := map (fun e => e / E_max) E_current.
Definition SOC_new : vec :=
  assign_where (fun s => s >? 1) 1 (assign_where (fun s => s <? 0) 0 SOC_new0).
Definition DOD_new : vec := map (fun s => 1 - s) SOC_new.

(** New charge throughput *)
Definition Q_total : vec :=
  Q_prior_0 ::
  map (fun c => Q_prior_0 + c / Units_hr)
      (cumtrapz I_cell (Time.control_points (time numerics))).

Definition Q_segment : vec :=
  Fin 0 ::
  map (fun c => c / Units_hr)
      (cumtrapz I_cell (Time.control_points (time numerics))).

(** [V_ul[SOC_new < 0.] = 0.] *)
Definition V_ul : vec := assign_mask (map (fun s => s <? 0) SOC_new) 0 V_ul0.

(** Pack outputs *)
Definition pack_outputs (V_Th : vec) : Battery :=
  {| inputs := inputs battery;
     cell := cell battery;
     pack_config := pack_config battery;
     module_config := module_config battery;
     cooling_fluid := cooling_fluid battery;
     discharge_performance_map := discharge_performance_map battery;
     heat_transfer_coefficient := heat_transfer_coefficient battery;
     ambient_temperature := ambient_temperature battery;
     initial_thevenin_voltage := initial_thevenin_voltage battery;
     max_energy := max_energy battery;
     R_growth_factor := R_growth_factor battery;
     temperature := temperature battery;
     charge_throughput := charge_throughput battery;
     current_energy := E_current;
     cell_temperature := T_current_new;
     pack_temperature := T_current_new;
     cell_joule_heat_fraction := q_joule_frac;
     cell_entropy_heat_fraction := q_entropy_frac;
     resistive_losses := P_loss;
     load_power := map2 (fun v i => v * of_Z n_series * i) V_ul I_bat;
     current := I_bat;
     voltage_open_circuit := map (fun v => v * of_Z n_series) (V_oc V_Th);
     cell_voltage_open_circuit := V_oc V_Th;
     cell_current := I_cell;
     thevenin_voltage := map (fun v => v * of_Z n_series) V_Th;
     cumulative_cell_charge_throughput := Q_total;
     cell_charge_throughput := Q_segment;
     heat_energy_generated := map (fun q => q * of_Z n_total_module) Q_heat_gen;
     internal_resistance := map (fun r => r * of_Z n_series) R_0;
     state_of_charge := SOC_new;
     depth_of_discharge := DOD_new;
     voltage_under_load := map (fun v => v * of_Z n_series) V_ul;
     cell_voltage_under_load := V_ul |}.

End Body.

(** [LiNiMnCo_charge(battery,numerics)] *)
Definition LiNiMnCo_charge (battery : Battery) (numerics : Numerics)
  : option Battery :=
  E_current_0 <- first (current_energy battery) ;;
  T_current_0 <- first (temperature battery) ;;
  V_Th' <- V_Th battery numerics E_current_0 ;;
  Q_prior_0 <- first (charge_throughput battery) ;;
  Some (pack_outputs battery numerics E_current_0 T_current_0 Q_prior_0 V_Th').

End Model.

(** ** Scenarios

    Concrete inputs on which the model is run: an 18650-like single cell on
    three collocation points over 1000 s, with stand-ins for the library
    routines. *)

Module Scenario.

(** A finite value rounded down to twelve decimals: the finite precision of
    the stand-ins below. *)
Definition round (x : npfloat) : npfloat :=
  match x with
  | Fin q => Fin (Qred (Qfloor (q * 1000000000000) # 1000000000000))
  | _ => x
  end.

(** A fixed-step explicit (Euler) solver in the place of [odeint]: [k] steps
    on every interval of [t], the solution reported at every time of [t]. *)
Fixpoint euler_steps (f : npfloat -> npfloat -> npfloat) (k : nat)
  (h z t : npfloat) : npfloat :=
  match k with
  | O => z
  | S k' => euler_steps f k' h (round (z + h * f z t)) (round (t + h))
  end.

Fixpoint euler_from (f : npfloat -> npfloat -> npfloat) (k : nat)
  (z t0 : npfloat) (ts : vec) : vec :=
  match ts with
  | [] => []
  | t1 :: ts' =>
      let z1 := euler_steps f k ((t1 - t0) / of_Z (Z.of_nat k)) z t0 in
      z1 :: euler_from f k z1 t1 ts'
  end.

Definition odeint_euler (k : nat) (f : npfloat -> npfloat -> npfloat)
  (y0 : npfloat) (t : vec) : vec :=
  match t with
  | [] => []
  | t0 :: ts => y0 :: euler_from f k y0 t0 ts
  end.

(** The exponential by its series up to the term of degree 12. *)
Fixpoint exp_terms (x term : Q) (k n : nat) : Q :=
  match n with
  | O => 0
  | S n' => (term + exp_terms x (Qred (term * x / inject_Z (Z.of_nat k))) (S k) n')%Q
  end.

Definition exp_series (x : npfloat) : npfloat :=
  match x with
  | NaN => NaN
  | NInf => Fin 0
  | Fin q => round (Fin (exp_terms q 1 1 13))
  | PInf => PInf
  end.

(** The single-cell branch calls neither [np.sqrt], [np.log], a fractional
    power nor [np.pi]: they are left undefined. *)
Definition undefined1 (_ : npfloat) : npfloat := NaN.
Definition undefined2 (_ _ : npfloat) : npfloat := NaN.

Definition hr : npfloat := 3600.

Definition run : Battery -> Numerics -> option Battery :=
  LiNiMnCo_charge undefined1 exp_series undefined1 undefined2 NaN
    (odeint_euler 50) hr.

(** The response surface: a row [DOD, voltage] per point [I, T, DOD], the
    voltage falling with the depth of discharge and with the current. *)
Definition voltage_row (p : vec) : vec :=
  match p with
  | [i; _; d] => [d; 4.1 - 0.9 * d - 0.02 * i]
  | _ => []
  end.

Definition cell_18650 : Cell.t :=
  {| Cell.mass := 0.05;
     Cell.electrode_area := 0.04;
     Cell.specific_heat_capacity := 1000;
     Cell.surface_area := 0.004;
     Cell.diameter := 0.0185;
     Cell.height := 0.0653 |}.

Definition air : CoolingFluid.t :=
  {| CoolingFluid.thermal_conductivity := 0.0253;
     CoolingFluid.specific_heat_capacity := 1006;
     CoolingFluid.discharge_air_cooling_flowspeed := 0.01;
     CoolingFluid.density := 1.2;
     CoolingFluid.kinematic_viscosity_fit := fun T => 0.0000133 + 0.00000009 * T;
     CoolingFluid.prandlt_number_fit := fun _ => Fin 0.71 |}.

(** A single cell with the current and power draw, the prior energy and the
    prior temperature given; the ambient air is at the prior temperature. *)
Definition single_cell (I_bat P_bat : vec) (E0 T0 : npfloat) : Battery :=
  {| inputs := {| Inputs.current := I_bat; Inputs.power_in := P_bat |};
     cell := cell_18650;
     pack_config := {| PackConfig.series := 1; PackConfig.parallel := 1 |};
     module_config :=
       {| ModuleConfig.normal_count := 1;
          ModuleConfig.parallel_count := 1;
          ModuleConfig.normal_spacing := 0.02;
          ModuleConfig.parallel_spacing := 0.02 |};
     cooling_fluid := air;
     discharge_performance_map := {| PerformanceMap.Voltage := map voltage_row |};
     heat_transfer_coefficient := 35;
     ambient_temperature := [T0; T0; T0];
     initial_thevenin_voltage := 0;
     max_energy := 40000;
     R_growth_factor := 1;
     temperature := [T0; T0; T0];
     charge_throughput := [Fin 0; Fin 0; Fin 0];
     current_energy := [E0; E0; E0];
     cell_temperature := [T0; T0; T0];
     pack_temperature := [T0; T0; T0];
     cell_joule_heat_fraction := [];
     cell_entropy_heat_fraction := [];
     resistive_losses := [];
     load_power := [];
     current := [];
     voltage_open_circuit := [];
     cell_voltage_open_circuit := [];
     cell_current := [];
     thevenin_voltage := [];
     cumulative_cell_charge_throughput := [];
     cell_charge_throughput := [];
     heat_energy_generated := [];
     internal_resistance := [];
     state_of_charge := [];
     depth_of_discharge := [];
     voltage_under_load := [];
     cell_voltage_under_load := [] |}.

(** Three collocation points at 0 s, 500 s and 1000 s, and the cumulative
    trapezoidal rule on them as the integration operator. *)
Definition segment : Numerics :=
  {| time :=
       {| Time.integrate := [[Fin 0; Fin 0; Fin 0];
                             [Fin 250; Fin 250; Fin 0];
                             [Fin 250; Fin 500; Fin 250]];
          Time.control_points := [Fin 0; Fin 500; Fin 1000] |} |}.

(** Charging at 8 A and 30 W from half charge, at 310 K. *)
Definition charging : Battery :=
  single_cell [Fin (-8); Fin (-8); Fin (-8)] [Fin 30; Fin 30; Fin 30] 20000 310.

(** No current, a net power of -1 W, from an empty battery at 300 K. *)
Definition draining : Battery :=
  single_cell [Fin 0; Fin 0; Fin 0] [Fin (-1); Fin (-1); Fin (-1)] 0 300.

(** A power series with nan at the second collocation point. *)
Definition nan_power : Battery :=
  single_cell [Fin (-8); Fin (-8); Fin (-8)] [Fin 30; NaN; Fin 30] 20000 310.

(** The three runs. *)
Definition result (b : Battery) : Battery :=
  match run b segment with
  | Some out => out
  | None => b
  end.

Definition charging_out : Battery := Eval vm_compute in result charging.
Definition draining_out : Battery := Eval vm_compute in result draining.
Definition nan_power_out : Battery := Eval vm_compute in result nan_power.

(** A pack of [ns] by [np] such cells, with the initial Thevenin voltage, the
    energy capacity and the cell temperatures given as well. *)
Definition cell_pack (ns np : Z) (v0 E_max : npfloat) (T_cell I_bat P_bat : vec)
  (E0 T0 : npfloat) : Battery :=
  {| inputs := {| Inputs.current := I_bat; Inputs.power_in := P_bat |};
     cell := cell_18650;
     pack_config := {| PackConfig.series := ns; PackConfig.parallel := np |};
     module_config :=
       {| ModuleConfig.normal_count := 1;
          ModuleConfig.parallel_count := 1;
          ModuleConfig.normal_spacing := 0.02;
          ModuleConfig.parallel_spacing := 0.02 |};
     cooling_fluid := air;
     discharge_performance_map := {| PerformanceMap.Voltage := map voltage_row |};
     heat_transfer_coefficient := 35;
     ambient_temperature := [T0; T0; T0];
     initial_thevenin_voltage := v0;
     max_energy := E_max;
     R_growth_factor := 1;
     temperature := [T0; T0; T0];
     charge_throughput := [Fin 0; Fin 0; Fin 0];
     current_energy := [E0; E0; E0];
     cell_temperature := T_cell;
     pack_temperature := T_cell;
     cell_joule_heat_fraction := [];
     cell_entropy_heat_fraction := [];
     resistive_losses := [];
     load_power := [];
     current := [];
     voltage_open_circuit := [];
     cell_voltage_open_circuit := [];
     cell_current := [];
     thevenin_voltage := [];
     cumulative_cell_charge_throughput := [];
     cell_charge_throughput := [];
     heat_energy_generated := [];
     internal_resistance := [];
     state_of_charge := [];
     depth_of_discharge := [];
     voltage_under_load := [];
     cell_voltage_under_load := [] |}.

(** The charging cell with a nan reading of the cell temperature at the second
    collocation point; the power series and the prior energy are finite. *)
Definition nan_temperature : Battery :=
  cell_pack 1 1 0 40000 [Fin 310; NaN; Fin 310]
    [Fin (-8); Fin (-8); Fin (-8)] [Fin 30; Fin 30; Fin 30] 20000 310.

(** The draining cell with an energy capacity of zero: every input is
    finite. *)
Definition zero_capacity : Battery :=
  cell_pack 1 1 0 0 [Fin 300; Fin 300; Fin 300]
    [Fin 0; Fin 0; Fin 0] [Fin (-1); Fin (-1); Fin (-1)] 0 300.

(** The charging cell with a nan current at the first collocation point. *)
Definition nan_current : Battery :=
  single_cell [NaN; Fin (-8); Fin (-8)] [Fin 30; Fin 30; Fin 30] 20000 310.

(** Three cells in series, charging at 8 A and 90 W, with an initial Thevenin
    voltage of 0.3 V over the pack. *)
Definition series_of_three : Battery :=
  cell_pack 3 1 0.3 120000 [Fin 310; Fin 310; Fin 310]
    [Fin (-8); Fin (-8); Fin (-8)] [Fin 90; Fin 90; Fin 90] 60000 310.

Definition nan_temperature_out : Battery := Eval vm_compute in result nan_temperature.
Definition zero_capacity_out : Battery := Eval vm_compute in result zero_capacity.
Definition nan_current_out : Battery := Eval vm_compute in result nan_current.
Definition series_of_three_out : Battery := Eval vm_compute in result series_of_three.

(** Canonical form of a finite value, to read results. *)
Definition canon (x : npfloat) : npfloat :=
  match x with
  | Fin q => Fin (Qred q)
  | _ => x
  end.

(** A first-order RC circuit with R = 1 Ohm and C = 1 F (time constant 1 s)
    under a constant current of 1 A, from 0 V: control points at 0 s, 1 s
    and 5 s, five time constants. *)
Definition rc_times : Numerics :=
  {| time := {| Time.integrate := [];
                Time.control_points := [Fin 0; Fin 1; Fin 5] |} |}.

Definition rc_ones : vec := [Fin 1; Fin 1; Fin 1].

(** The initial-value problem of that circuit, solved along the control
    points. *)
Definition rc_solution : vec :=
  odeint_euler 10 (fun z t => model z t 1 1 1) 0
    (Time.control_points (time rc_times)).

End Scenario.

(** ** Predicates of the statements *)

(** A value that is neither nan nor infinite. *)
Definition finite (x : npfloat) : Prop :=
  match x with
  | Fin _ => True
  | _ => False
  end.

(** A finite value other than zero. *)
Definition nonzero (x : npfloat) : Prop :=
  match x with
  | Fin q => ~ (q == 0)%Q
  | _ => False
  end.

(** [lo <= x <= hi], which no nan satisfies. *)
Definition between (lo hi x : npfloat) : Prop :=
  (lo <=? x) = true /\ (x <=? hi) = true.

(** The two masked assignments [a[a < lo] = lo; a[a > hi] = hi] on one
    entry. *)
Definition clamp (lo hi : Q) (x : npfloat) : npfloat :=
  let y := if x <? Fin lo then Fin lo else x in
  if y >? Fin hi then Fin hi else y.

(** The inputs that decide the energy and the state of charge are finite,
    and the divisors among them are not zero. *)
Definition finite_inputs (b : Battery) (n : Numerics) : Prop :=
  Forall finite (Inputs.current (inputs b)) /\
  Forall finite (Inputs.power_in (inputs b)) /\
  Forall finite (current_energy b) /\
  Forall finite (cell_temperature b) /\
  Forall (Forall finite) (Time.integrate (time n)) /\
  nonzero (max_energy b) /\
  nonzero (Cell.electrode_area (cell b)) /\
  finite (Cell.surface_area (cell b)) /\
  PackConfig.parallel (pack_config b) <> 0%Z.

(** [x <= y] as numpy decides it. *)
Definition fle (x y : npfloat) : Prop := (x <=? y) = true.

(** Two finite values in order. *)
Definition le_fin (x y : npfloat) : Prop :=
  match x, y with
  | Fin a, Fin b => (a <= b)%Q
  | _, _ => False
  end.

(** A finite value above zero. *)
Definition positive (x : npfloat) : Prop :=
  match x with
  | Fin q => (0 < q)%Q
  | _ => False
  end.

(** The times of a segment: finite and in order. *)
Definition increasing_times (t : vec) : Prop :=
  Forall finite t /\ Sorted fle t.

(** [between], decided. *)
Definition betweenb (lo hi x : npfloat) : bool := (lo <=? x) && (x <=? hi).

(** A value [r] and what the two masked assignments [a[a < lo] = lo;
    a[a > hi] = hi] leave in its place: a value within the limits, unless [r]
    is nan, which both comparisons let through. *)
Definition limited (lo hi : Q) (r s : npfloat) : Prop :=
  s = clamp lo hi r /\
  (is_nan r = false -> between (Fin lo) (Fin hi) s) /\
  (is_nan r = true -> s = NaN).

(** A state of charge [s] and the depth of discharge [1 - s]. *)
Definition complement (s d : npfloat) : Prop :=
  d = 1 - s /\
  (between 0 1 s -> between 0 1 d) /\
  (s = NaN -> d = NaN).

(** nan, or within the limits. *)
Definition nan_or_between (lo hi x : npfloat) : Prop :=
  x = NaN \/ between lo hi x.

(** ** Further predicates and helpers *)

(** Two values that numpy holds equal: the same special value, or finite
    values equal as rationals. *)
Definition feq (x y : npfloat) : Prop :=
  match x, y with
  | NaN, NaN | NInf, NInf | PInf, PInf => True
  | Fin a, Fin b => (a == b)%Q
  | _, _ => False
  end.

(** Every entry is nan. *)
Definition all_nan (a : vec) : Prop := Forall (fun x => x = NaN) a.

(** The arrays that decide the energy are columns of one length [N], the
    number of control points, and the operator is [N] by [N]. *)
Definition well_shaped (b : Battery) (n : Numerics) : Prop :=
  let N := length (Time.control_points (time n)) in
  length (Inputs.current (inputs b)) = N /\
  length (Inputs.power_in (inputs b)) = N /\
  length (cell_temperature b) = N /\
  length (Time.integrate (time n)) = N /\
  Forall (fun r => length r = N) (Time.integrate (time n)).

(** [battery.current_energy = e] *)
Definition with_current_energy (e : vec) (b : Battery) : Battery :=
  {| inputs := inputs b;
     cell := cell b;
     pack_config := pack_config b;
     module_config := module_config b;
     cooling_fluid := cooling_fluid b;
     discharge_performance_map := discharge_performance_map b;
     heat_transfer_coefficient := heat_transfer_coefficient b;
     ambient_temperature := ambient_temperature b;
     initial_thevenin_voltage := initial_thevenin_voltage b;
     max_energy := max_energy b;
     R_growth_factor := R_growth_factor b;
     temperature := temperature b;
     charge_throughput := charge_throughput b;
     current_energy := e;
     cell_temperature := cell_temperature b;
     pack_temperature := pack_temperature b;
     cell_joule_heat_fraction := cell_joule_heat_fraction b;
     cell_entropy_heat_fraction := cell_entropy_heat_fraction b;
     resistive_losses := resistive_losses b;
     load_power := load_power b;
     current := current b;
     voltage_open_circuit := voltage_open_circuit b;
     cell_voltage_open_circuit := cell_voltage_open_circuit b;
     cell_current := cell_current b;
     thevenin_voltage := thevenin_voltage b;
     cumulative_cell_charge_throughput := cumulative_cell_charge_throughput b;
     cell_charge_throughput := cell_charge_throughput b;
     heat_energy_generated := heat_energy_generated b;
     internal_resistance := internal_resistance b;
     state_of_charge := state_of_charge b;
     depth_of_discharge := depth_of_discharge b;
     voltage_under_load := voltage_under_load b;
     cell_voltage_under_load := cell_voltage_under_load b |}.

(** [battery.charge_throughput = q] *)
Definition with_charge_throughput (q : vec) (b : Battery) : Battery :=
  {| inputs := inputs b;
     cell := cell b;
     pack_config := pack_config b;
     module_config := module_config b;
     cooling_fluid := cooling_fluid b;
     discharge_performance_map := discharge_performance_map b;
     heat_transfer_coefficient := heat_transfer_coefficient b;
     ambient_temperature := ambient_temperature b;
     initial_thevenin_voltage := initial_thevenin_voltage b;
     max_energy := max_energy b;
     R_growth_factor := R_growth_factor b;
     temperature := temperature b;
     charge_throughput := q;
     current_energy := current_energy b;
     cell_temperature := cell_temperature b;
     pack_temperature := pack_temperature b;
     cell_joule_heat_fraction := cell_joule_heat_fraction b;
     cell_entropy_heat_fraction := cell_entropy_heat_fraction b;
     resistive_losses := resistive_losses b;
     load_power := load_power b;
     current := current b;
     voltage_open_circuit := voltage_open_circuit b;
     cell_voltage_open_circuit := cell_voltage_open_circuit b;
     cell_current := cell_current b;
     thevenin_voltage := thevenin_voltage b;
     cumulative_cell_charge_throughput := cumulative_cell_charge_throughput b;
     cell_charge_throughput := cell_charge_throughput b;
     heat_energy_generated := heat_energy_generated b;
     internal_resistance := internal_resistance b;
     state_of_charge := state_of_charge b;
     depth_of_discharge := depth_of_discharge b;
     voltage_under_load := voltage_under_load b;
     cell_voltage_under_load := cell_voltage_under_load b |}.

(** ** The checks of the regression scripts

    [regression/scripts/VTOL/test_Stopped_Rotor.py], [main]: the values
    compared come from the mission solve; the comparisons themselves are the
    following. *)

(** [np.abs((x - x_true)/x_true) < 1e-3], the check of the rotor RPM and of
    the lift coefficient against their reference values. *)
Definition reference_check (x x_true : npfloat) : bool :=
  fabs ((x - x_true) / x_true) <? 1e-3.

(** [all(np.abs((battery_energy - battery_energy_true)/battery_energy) < 1e-3)],
    the check of the battery energy during the transition: the difference is
    divided by the computed energy. *)
Definition battery_energy_check (battery_energy battery_energy_true : vec) : bool :=
  forallb (fun r => fabs r <? 1e-3)
    (map2 fdiv (map2 fsub battery_energy battery_energy_true) battery_energy).

(** * Properties *)

(** ** Scalars *)

Lemma Qlt_bool_true (a b : Q) : Qlt_bool a b = true <-> (a < b)%Q.
Proof.
  unfold Qlt_bool. rewrite negb_true_iff, <- not_true_iff_false, Qle_bool_iff.
  split; intro H; [apply Qnot_le_lt | apply Qlt_not_le]; exact H.
Qed.

Lemma Qlt_bool_false (a b : Q) : Qlt_bool a b = false <-> (b <= a)%Q.
Proof.
  unfold Qlt_bool. rewrite negb_false_iff. apply Qle_bool_iff.
Qed.

Lemma finite_add (x y : npfloat) : finite x -> finite y -> finite (x + y).
Proof. destruct x, y; simpl; tauto. Qed.

Lemma finite_neg (x : npfloat) : finite x -> finite (- x).
Proof. destruct x; simpl; tauto. Qed.

Lemma finite_sub (x y : npfloat) : finite x -> finite y -> finite (x - y).
Proof. destruct x, y; simpl; tauto. Qed.

Lemma finite_mul (x y : npfloat) : finite x -> finite y -> finite (x * y).
Proof. destruct x, y; simpl; tauto. Qed.

Lemma finite_abs (x : npfloat) : finite x -> finite (fabs x).
Proof. destruct x; simpl; tauto. Qed.

Lemma finite_pow (x : npfloat) (n : nat) : finite x -> finite (x ** n).
Proof.
  intros Hx. induction n as [|n IH]; simpl.
  - exact Logic.I.
  - now apply finite_mul.
Qed.

Lemma finite_div (x y : npfloat) : finite x -> nonzero y -> finite (x / y).
Proof.
  destruct x, y; simpl; try tauto. intros _ Hq.
  destruct (Qeq_bool q0 0) eqn:E; [|exact Logic.I].
  apply Qeq_bool_eq in E. contradiction.
Qed.

Lemma nonzero_finite (x : npfloat) : nonzero x -> finite x.
Proof. destruct x; simpl; tauto. Qed.

Lemma nonzero_of_Z (z : Z) : z <> 0%Z -> nonzero (of_Z z).
Proof.
  intros Hz. simpl. unfold Qeq. simpl. lia.
Qed.

Lemma finite_not_nan (x : npfloat) : finite x -> is_nan x = false.
Proof. destruct x; simpl; tauto. Qed.

Lemma between_finite (lo hi : Q) (x : npfloat) :
  between (Fin lo) (Fin hi) x -> exists q, x = Fin q /\ (lo <= q <= hi)%Q.
Proof.
  unfold between. destruct x; simpl; intros [H1 H2]; try discriminate.
  exists q. split; [reflexivity|]. split; now apply Qle_bool_iff.
Qed.

Lemma between_Fin (lo hi q : Q) :
  (lo <= q <= hi)%Q -> between (Fin lo) (Fin hi) (Fin q).
Proof.
  intros [H1 H2]. split; simpl; now apply Qle_bool_iff.
Qed.

Lemma fltb_irrefl (x : npfloat) : (x <? x) = false.
Proof.
  destruct x; simpl; try reflexivity. apply Qlt_bool_false. apply Qle_refl.
Qed.

Lemma clamp_between (lo hi : Q) (x : npfloat) :
  (lo <= hi)%Q -> is_nan x = false -> between (Fin lo) (Fin hi) (clamp lo hi x).
Proof.
  intros Hlh Hx. unfold clamp. destruct x; simpl in *; try discriminate.
  - (* -inf *)
    destruct (Qlt_bool hi lo) eqn:E.
    + apply Qlt_bool_true in E. exfalso. apply (Qlt_not_le _ _ E Hlh).
    + apply between_Fin. split; [apply Qle_refl | exact Hlh].
  - destruct (Qlt_bool q lo) eqn:E1; simpl.
    + destruct (Qlt_bool hi lo) eqn:E2.
      * apply Qlt_bool_true in E2. exfalso. apply (Qlt_not_le _ _ E2 Hlh).
      * apply between_Fin. split; [apply Qle_refl | exact Hlh].
    + apply Qlt_bool_false in E1.
      destruct (Qlt_bool hi q) eqn:E2.
      * apply between_Fin. split; [exact Hlh | apply Qle_refl].
      * apply Qlt_bool_false in E2. apply between_Fin. split; assumption.
  - (* +inf *)
    apply between_Fin. split; [exact Hlh | apply Qle_refl].
Qed.

Lemma clamp_nan_or_between (lo hi : Q) (x : npfloat) :
  (lo <= hi)%Q ->
  is_nan (clamp lo hi x) = true \/ between (Fin lo) (Fin hi) (clamp lo hi x).
Proof.
  intros Hlh. destruct (is_nan x) eqn:E.
  - left. destruct x; try discriminate. reflexivity.
  - right. now apply clamp_between.
Qed.

(** After the two assignments no entry is below the lower limit, nan or
    not. *)
Lemma clamp_not_below (lo hi : Q) (x : npfloat) :
  (lo <= hi)%Q -> (clamp lo hi x <? Fin lo) = false.
Proof.
  intros Hlh. destruct (is_nan x) eqn:E.
  - destruct x; try discriminate. reflexivity.
  - destruct (between_finite (clamp_between x Hlh E)) as [q [-> [H1 H2]]].
    simpl. now apply Qlt_bool_false.
Qed.

Lemma limited_clamp (lo hi : Q) (r : npfloat) :
  (lo <= hi)%Q -> limited lo hi r (clamp lo hi r).
Proof.
  intros Hlh. split; [reflexivity|]. split.
  - now apply clamp_between.
  - destruct r; simpl; try discriminate. reflexivity.
Qed.

Lemma nan_or_between_clamp (lo hi : Q) (r : npfloat) :
  (lo <= hi)%Q -> nan_or_between (Fin lo) (Fin hi) (clamp lo hi r).
Proof.
  intros Hlh. destruct (is_nan r) eqn:E.
  - left. destruct r; try discriminate. reflexivity.
  - right. now apply clamp_between.
Qed.

Lemma assign_where_clamp (lo hi : Q) (a : vec) :
  assign_where (fun s => s >? Fin hi) (Fin hi)
    (assign_where (fun s => s <? Fin lo) (Fin lo) a)
  = map (clamp lo hi) a.
Proof.
  unfold assign_where. rewrite map_map. reflexivity.
Qed.

(** ** Arrays *)

Lemma Forall_map2 {A B C : Type} (P : A -> Prop) (Q : B -> Prop) (R : C -> Prop)
  (f : A -> B -> C) (l : list A) (m : list B) :
  (forall a b, P a -> Q b -> R (f a b)) ->
  Forall P l -> Forall Q m -> Forall R (map2 f l m).
Proof.
  intros Hf Hl. revert m. induction Hl as [|a l Ha Hl IH]; intros m Hm.
  - constructor.
  - destruct Hm as [|b m Hb Hm]; simpl; constructor; auto.
Qed.

Lemma Forall_map3 {A B C D : Type} (P : A -> Prop) (Q : B -> Prop)
  (R : C -> Prop) (S : D -> Prop) (f : A -> B -> C -> D)
  (l : list A) (m : list B) (k : list C) :
  (forall a b c, P a -> Q b -> R c -> S (f a b c)) ->
  Forall P l -> Forall Q m -> Forall R k -> Forall S (map3 f l m k).
Proof.
  intros Hf Hl. revert m k. induction Hl as [|a l Ha Hl IH]; intros m k Hm Hk.
  - constructor.
  - destruct Hm as [|b m Hb Hm]; simpl; [constructor|].
    destruct Hk as [|c k Hc Hk]; simpl; constructor; auto.
Qed.

Lemma Forall_map_impl {A B : Type} (P : A -> Prop) (Q : B -> Prop)
  (f : A -> B) (l : list A) :
  (forall a, P a -> Q (f a)) -> Forall P l -> Forall Q (map f l).
Proof.
  intros Hf Hl. induction Hl; simpl; constructor; auto.
Qed.

Lemma Forall_map_all {A B : Type} (Q : B -> Prop) (f : A -> B) (l : list A) :
  (forall a, Q (f a)) -> Forall Q (map f l).
Proof.
  intros Hf. induction l; simpl; constructor; auto.
Qed.

Lemma Forall2_map_r {A B : Type} (R : A -> B -> Prop) (f : A -> B) (l : list A) :
  (forall a, R a (f a)) -> Forall2 R l (map f l).
Proof.
  intros Hf. induction l; simpl; constructor; auto.
Qed.

Lemma finite_fold_add (l : vec) (acc : npfloat) :
  finite acc -> Forall finite l -> finite (fold_left fadd l acc).
Proof.
  intros Hacc Hl. revert acc Hacc.
  induction Hl as [|x l Hx Hl IH]; intros acc Hacc; simpl.
  - exact Hacc.
  - apply IH. now apply finite_add.
Qed.

Lemma finite_dot_row (r v : vec) :
  Forall finite r -> Forall finite v -> finite (dot_row r v).
Proof.
  intros Hr Hv. unfold dot_row. apply finite_fold_add.
  - exact Logic.I.
  - apply (Forall_map2 (P := finite) (Q := finite)); auto using finite_mul.
Qed.

Lemma finite_dot (M : list vec) (v : vec) :
  Forall (Forall finite) M -> Forall finite v -> Forall finite (dot M v).
Proof.
  intros HM Hv. unfold dot.
  apply (Forall_map_impl (P := Forall finite)); [|exact HM].
  intros r Hr. now apply finite_dot_row.
Qed.

Lemma finite_no_nan (a : vec) : Forall finite a -> isnan_any a = false.
Proof.
  unfold isnan_any. induction 1 as [|x a Hx Ha IH]; simpl.
  - reflexivity.
  - rewrite (finite_not_nan _ Hx). exact IH.
Qed.

Lemma finite_assign_where (cond : npfloat -> bool) (v : npfloat) (a : vec) :
  finite v -> Forall finite a -> Forall finite (assign_where cond v a).
Proof.
  intros Hv Ha. unfold assign_where.
  apply (Forall_map_impl (P := finite)); [|exact Ha].
  intros x Hx. now destruct (cond x).
Qed.

Lemma between_clamp_map (lo hi : Q) (a : vec) :
  (lo <= hi)%Q -> Forall finite a ->
  Forall (between (Fin lo) (Fin hi)) (map (clamp lo hi) a).
Proof.
  intros Hlh Ha. apply (Forall_map_impl (P := finite)); [|exact Ha].
  intros x Hx. apply clamp_between; [exact Hlh | now apply finite_not_nan].
Qed.

Lemma between_is_finite (lo hi : Q) (a : vec) :
  Forall (between (Fin lo) (Fin hi)) a -> Forall finite a.
Proof.
  apply Forall_impl. intros x Hx.
  destruct (between_finite Hx) as [q [-> _]]. exact Logic.I.
Qed.

Lemma assign_mask_all_false (a : vec) (s : vec) (cond : npfloat -> bool)
  (v : npfloat) :
  Forall (fun x => cond x = false) s -> assign_mask (map cond s) v a = a.
Proof.
  intros Hs. revert a. induction Hs as [|x s Hx Hs IH]; intros a; simpl.
  - now destruct a.
  - destruct a as [|y a]; [reflexivity|]. rewrite Hx, IH. reflexivity.
Qed.

(** ** The state of charge and the depth of discharge *)

Lemma one_minus_unit (s : npfloat) :
  between 0 1 s -> between 0 1 (1 - s).
Proof.
  intros Hs. destruct (between_finite Hs) as [q [-> [H0 H1]]].
  apply between_Fin. split; lra.
Qed.

Lemma complement_one_minus (s : npfloat) : complement s (1 - s).
Proof.
  split; [reflexivity|]. split.
  - apply one_minus_unit.
  - intros ->. reflexivity.
Qed.

Lemma first_Forall (P : npfloat -> Prop) (a : vec) (x : npfloat) :
  Forall P a -> first a = Some x -> P x.
Proof.
  intros Ha Hx. destruct Ha as [|y a Hy Ha]; simpl in Hx; [discriminate|].
  injection Hx as <-. exact Hy.
Qed.

(** ** The nan handling of the energy *)

Lemma fold_maximum_any_nan (a : vec) (x : npfloat) :
  isnan_any (x :: a) = true -> fold_left maximum a x = NaN.
Proof.
  revert x. induction a as [|y a IH]; intros x H; simpl in *.
  - rewrite orb_false_r in H. now destruct x.
  - apply IH. unfold maximum.
    destruct (is_nan x) eqn:Ex; [now rewrite Ex|].
    destruct (is_nan y) eqn:Ey; [now rewrite Ey|].
    simpl in H. rewrite H. apply orb_true_r.
Qed.

Lemma np_max_nan (a : vec) : isnan_any a = true -> np_max a = NaN.
Proof.
  destruct a as [|x a]; [discriminate|]. apply fold_maximum_any_nan.
Qed.

(** Whenever the energy holds a nan, the handling makes every entry nan:
    [np.max] returns nan, and [np.isnan(E_bat.any())] tests a [bool]. *)
Lemma sanitize_spreads_nan (E : vec) :
  isnan_any E = true -> sanitize E = map (fun _ => NaN) E.
Proof.
  intros H. unfold sanitize. rewrite H, (np_max_nan _ H). simpl.
  unfold ones_like. rewrite map_map. reflexivity.
Qed.

Lemma sanitize_keeps_finite (E : vec) : isnan_any E = false -> sanitize E = E.
Proof. intros H. unfold sanitize. now rewrite H. Qed.

Lemma length_sanitize (E : vec) : length (sanitize E) = length E.
Proof.
  destruct (isnan_any E) eqn:H.
  - rewrite (sanitize_spreads_nan _ H). apply length_map.
  - now rewrite (sanitize_keeps_finite _ H).
Qed.

(** ** A run of the model *)

Section ChargeProperties.

Variables np_sqrt np_exp np_log : npfloat -> npfloat.
Variable np_power : npfloat -> npfloat -> npfloat.
Variable np_pi : npfloat.
Variable odeint : (npfloat -> npfloat -> npfloat) -> npfloat -> vec -> vec.
Variable Units_hr : npfloat.

Local Abbreviation charge :=
  (LiNiMnCo_charge np_sqrt np_exp np_log np_power np_pi odeint Units_hr).

(** What a run that returns has computed. *)
Lemma LiNiMnCo_charge_Some (b : Battery) (n : Numerics) (out : Battery) :
  charge b n = Some out ->
  exists E0 T0 Q0 V,
    first (current_energy b) = Some E0 /\
    first (temperature b) = Some T0 /\
    first (charge_throughput b) = Some Q0 /\
    V_Th np_exp odeint b n E0 = Some V /\
    out = pack_outputs np_sqrt np_exp np_log np_power np_pi Units_hr
            b n E0 T0 Q0 V.
Proof.
  unfold LiNiMnCo_charge, bind. intros H.
  destruct (first (current_energy b)) as [E0|] eqn:HE; [|discriminate].
  destruct (first (temperature b)) as [T0|] eqn:HT; [|discriminate].
  destruct (V_Th np_exp odeint b n E0) as [V|] eqn:HV; [|discriminate].
  destruct (first (charge_throughput b)) as [Q0|] eqn:HQ; [|discriminate].
  injection H as <-. exists E0, T0, Q0, V. repeat split; assumption.
Qed.

(** The model returns on every input whose prior-state arrays and control
    points are not empty. *)
Lemma LiNiMnCo_charge_returns (b : Battery) (n : Numerics) :
  current_energy b <> [] -> temperature b <> [] -> charge_throughput b <> [] ->
  Time.control_points (time n) <> [] ->
  exists out, charge b n = Some out.
Proof.
  intros HE HT HQ Ht. unfold LiNiMnCo_charge, bind, V_Th,
    compute_thevenin_votlage.
  destruct (current_energy b) as [|E0 ?]; [contradiction|].
  destruct (temperature b) as [|T0 ?]; [contradiction|].
  destruct (charge_throughput b) as [|Q0 ?]; [contradiction|].
  destruct (Time.control_points (time n)) as [|t0 ?]; [contradiction|].
  simpl. eexists. reflexivity.
Qed.

Lemma SOC_old_eq (b : Battery) (n : Numerics) (E0 : npfloat) :
  SOC_old b n E0 = map (clamp 0 1) (SOC_old0 b n E0).
Proof. apply assign_where_clamp. Qed.

Lemma SOC_new_eq (b : Battery) (n : Numerics) (E0 : npfloat) :
  SOC_new b n E0 = map (clamp 0 1) (SOC_new0 b n E0).
Proof. apply assign_where_clamp. Qed.

Lemma T_cell_eq (b : Battery) :
  T_cell b = map (clamp 272.65 322.65) (cell_temperature b).
Proof. apply assign_where_clamp. Qed.

Lemma I_cell_eq (b : Battery) : I_cell b = map (clamp 0 8) (I_cell0 b).
Proof. apply assign_where_clamp. Qed.

(** *** Finite inputs give finite intermediate values *)

Section Finite.

Variable b : Battery.
Variable n : Numerics.
Variable E0 : npfloat.
Hypothesis Hin : finite_inputs b n.
Hypothesis HE0 : finite E0.

Lemma finite_SOC_old0 : Forall finite (SOC_old0 b n E0).
Proof.
  destruct Hin as (_ & HP & _ & _ & HI & HEmax & _).
  unfold SOC_old0, initial_discharge_state.
  apply (Forall_map_impl (P := finite)).
  - intros e He. now apply finite_div.
  - apply (Forall_map_impl (P := finite)).
    + intros e He. now apply finite_add.
    + now apply finite_dot.
Qed.

Lemma unit_SOC_old : Forall (between 0 1) (SOC_old b n E0).
Proof.
  rewrite SOC_old_eq. apply between_clamp_map; [lra | apply finite_SOC_old0].
Qed.

Lemma finite_T_cell : Forall finite (T_cell b).
Proof.
  destruct Hin as (_ & _ & _ & HT & _).
  rewrite T_cell_eq. apply between_is_finite with (lo := 272.65) (hi := 322.65).
  apply between_clamp_map; [lra | exact HT].
Qed.

Lemma finite_delta_S : Forall finite (delta_S b n E0).
Proof.
  unfold delta_S. apply (Forall_map_impl (P := finite)).
  - intros s Hs.
    repeat first [ apply finite_add | apply finite_mul | apply finite_pow
                 | exact Logic.I | exact Hs ].
  - apply between_is_finite with (lo := 0) (hi := 1). apply unit_SOC_old.
Qed.

Lemma finite_i_cell : Forall finite (i_cell b).
Proof.
  destruct Hin as (HI & _ & _ & _ & _ & _ & Harea & _ & Hpar).
  unfold i_cell, I_cell0. apply (Forall_map_impl (P := finite)).
  - intros i Hi. now apply finite_div.
  - apply (Forall_map_impl (P := finite)); [|exact HI].
    intros i Hi. apply finite_div.
    + now apply finite_neg.
    + now apply nonzero_of_Z.
Qed.

End Finite.


(** ** Cumulative integration of a current that is not negative *)

Lemma le_fin_fle (x y : npfloat) : le_fin x y -> fle x y.
Proof.
  destruct x, y; simpl; try contradiction. intros H. now apply Qle_bool_iff.
Qed.

Lemma fle_le_fin (x y : npfloat) : finite x -> finite y -> fle x y -> le_fin x y.
Proof.
  destruct x, y; simpl; try contradiction. intros _ _ H. now apply Qle_bool_iff.
Qed.

Lemma between_nonneg (hi : Q) (x : npfloat) : between 0 (Fin hi) x -> le_fin 0 x.
Proof.
  intros H. destruct (between_finite H) as [q [-> [H0 _]]]. exact H0.
Qed.

Lemma nonneg_add (x y : npfloat) : le_fin 0 x -> le_fin 0 y -> le_fin 0 (x + y).
Proof. destruct x, y; simpl; try contradiction. intros; lra. Qed.

Lemma nonneg_mul (x y : npfloat) : le_fin 0 x -> le_fin 0 y -> le_fin 0 (x * y).
Proof.
  destruct x, y; simpl; try contradiction. intros. now apply Qmult_le_0_compat.
Qed.

Lemma nonneg_half (x : npfloat) : le_fin 0 x -> le_fin 0 (x / 2).
Proof.
  destruct x; simpl; try contradiction. intros H.
  change (Qeq_bool 2 0) with false. simpl.
  apply Qle_shift_div_l; lra.
Qed.

Lemma le_fin_add_nonneg (acc x : npfloat) :
  finite acc -> le_fin 0 x -> le_fin acc (acc + x).
Proof. destruct acc, x; simpl; try contradiction. intros; lra. Qed.

Lemma le_fin_finite_r (x y : npfloat) : le_fin x y -> finite y.
Proof. destruct x, y; simpl; tauto. Qed.

Lemma nonneg_diff (t : vec) : increasing_times t -> Forall (le_fin 0) (diff t).
Proof.
  intros [Hf Hs]. induction t as [|a t IH]; simpl.
  - constructor.
  - destruct t as [|c t]; [constructor|].
    inversion Hf as [|? ? Ha Hf']; subst.
    inversion Hs as [|? ? Hs' Hhd]; subst.
    constructor.
    + inversion Hhd as [|? ? Hac]; subst.
      inversion Hf' as [|? ? Hc _]; subst.
      apply (fle_le_fin Ha Hc) in Hac.
      destruct a, c; simpl in *; try contradiction. lra.
    + now apply IH.
Qed.

Lemma nonneg_adjacent_sums (y : vec) :
  Forall (le_fin 0) y -> Forall (le_fin 0) (adjacent_sums y).
Proof.
  intros Hy. induction y as [|a y IH]; simpl.
  - constructor.
  - destruct y as [|c y]; [constructor|].
    inversion Hy as [|? ? Ha Hy']; subst.
    constructor.
    + inversion Hy' as [|? ? Hc _]; subst. now apply nonneg_add.
    + now apply IH.
Qed.

Lemma sorted_cumsum_from (a : vec) :
  Forall (le_fin 0) a ->
  forall acc, finite acc -> Sorted le_fin (acc :: cumsum_from acc a).
Proof.
  induction 1 as [|x a Hx Ha IH]; intros acc Hacc; simpl.
  - repeat constructor.
  - constructor.
    + apply IH. apply le_fin_finite_r with acc. now apply le_fin_add_nonneg.
    + constructor. now apply le_fin_add_nonneg.
Qed.

Lemma sorted_cumsum (a : vec) :
  Forall (le_fin 0) a -> Sorted le_fin (Fin 0 :: cumsum a).
Proof.
  intros Ha. destruct Ha as [|x a Hx Ha]; simpl.
  - repeat constructor.
  - constructor.
    + apply sorted_cumsum_from; [exact Ha | now apply le_fin_finite_r with (Fin 0)].
    + constructor. exact Hx.
Qed.

Lemma nonneg_trapezoids (y t : vec) :
  Forall (le_fin 0) y -> Forall (le_fin 0) (diff t) ->
  Forall (le_fin 0) (map (fun p => p / 2) (map2 fmul (diff t) (adjacent_sums y))).
Proof.
  intros Hy Ht. apply (Forall_map_impl (P := le_fin 0)).
  - apply nonneg_half.
  - apply (Forall_map2 (P := le_fin 0) (Q := le_fin 0)).
    + apply nonneg_mul.
    + exact Ht.
    + now apply nonneg_adjacent_sums.
Qed.

Lemma Sorted_map_mono {A B : Type} (R : A -> A -> Prop) (R' : B -> B -> Prop)
  (f : A -> B) (l : list A) :
  (forall a b, R a b -> R' (f a) (f b)) -> Sorted R l -> Sorted R' (map f l).
Proof.
  intros Hf Hl. induction Hl as [|a l Hl IH Hhd]; simpl.
  - constructor.
  - constructor; [exact IH|].
    destruct Hhd; simpl; constructor; auto.
Qed.

Lemma Sorted_weaken {A : Type} (R R' : A -> A -> Prop) (l : list A) :
  (forall a b, R a b -> R' a b) -> Sorted R l -> Sorted R' l.
Proof.
  intros HR Hl. induction Hl as [|a l Hl IH Hhd].
  - constructor.
  - constructor; [exact IH|]. destruct Hhd; constructor; auto.
Qed.

(** The throughput of a segment: [Q0] followed by [Q0 + c / hr] for the
    cumulative integrals [c]. *)
Lemma sorted_throughput (Q0 hr : npfloat) (y t : vec) :
  finite Q0 -> positive hr -> Forall (le_fin 0) y ->
  Forall (le_fin 0) (diff t) ->
  Sorted fle (Q0 :: map (fun c => Q0 + c / hr) (cumtrapz y t)).
Proof.
  intros HQ Hhr Hy Ht.
  pose proof (sorted_cumsum (@nonneg_trapezoids y t Hy Ht)) as Hs.
  fold (cumtrapz y t) in Hs.
  assert (Hmono : forall a c, le_fin a c -> le_fin (Q0 + a / hr) (Q0 + c / hr)).
  { intros a c Hac. destruct Q0, hr, a, c; simpl in *; try contradiction.
    assert (E : Qeq_bool q0 0 = false).
    { apply not_true_iff_false. intro E. apply Qeq_bool_eq in E.
      rewrite E in Hhr. now apply Qlt_irrefl in Hhr. }
    rewrite E. simpl. apply Qplus_le_r. unfold Qdiv.
    apply Qmult_le_compat_r; [exact Hac|].
    apply Qlt_le_weak. now apply Qinv_lt_0_compat. }
  apply Sorted_weaken with (R := le_fin); [apply le_fin_fle|].
  inversion Hs as [|? ? Hs' Hhd]; subst.
  constructor.
  - now apply Sorted_map_mono with (R := le_fin).
  - destruct Hhd as [|c l Hc]; simpl; constructor.
    destruct Q0, hr, c; simpl in *; try contradiction.
    assert (E : Qeq_bool q0 0 = false).
    { apply not_true_iff_false. intro E. apply Qeq_bool_eq in E.
      rewrite E in Hhr. now apply Qlt_irrefl in Hhr. }
    rewrite E. simpl.
    assert (0 <= q1 / q0)%Q by (apply Qle_shift_div_l; lra).
    lra.
Qed.

Lemma fgtb_false_fle (x y : npfloat) :
  (x >? y) = false -> is_nan x = false -> is_nan y = false -> fle x y.
Proof.
  unfold fgtb, fle. destruct x, y; simpl; try discriminate; try reflexivity.
  intros H _ _. apply Qle_bool_iff. now apply Qlt_bool_false.
Qed.

Lemma assign_where_gt (M : npfloat) (a : vec) :
  Forall (fun e => (e >? M) = false) (assign_where (fun e => e >? M) M a).
Proof.
  unfold assign_where. apply Forall_map_all. intros e.
  destruct (e >? M) eqn:E; [|exact E]. unfold fgtb. apply fltb_irrefl.
Qed.

Lemma SOC_new_not_negative (b : Battery) (n : Numerics) (E0 : npfloat) :
  Forall (fun s => (s <? 0) = false) (SOC_new b n E0).
Proof.
  rewrite SOC_new_eq. apply Forall_map_all. intros s.
  apply clamp_not_below. lra.
Qed.

(** The assignment [V_ul[SOC_new < 0.] = 0.] changes nothing: [SOC_new] has
    been limited to [0, 1] before. *)
Lemma V_ul_unchanged (b : Battery) (n : Numerics) (E0 : npfloat) :
  V_ul b n E0 = V_ul0 b n E0.
Proof.
  unfold V_ul. apply assign_mask_all_false. apply SOC_new_not_negative.
Qed.

(** *** The claims on a run of the model *)


(** C9. The depth of discharge is 1 - SOC at every collocation point, for the
    final and for the provisional state of charge. *)
Theorem depth_of_discharge_is_one_minus_soc (b : Battery) (n : Numerics)
  (out : Battery) :
  charge b n = Some out ->
  Forall2 (fun s d => d = 1 - s) (state_of_charge out) (depth_of_discharge out) /\
  exists E0, first (current_energy b) = Some E0 /\
    Forall2 (fun s d => d = 1 - s) (SOC_old b n E0) (DOD_old b n E0).
Proof.
  intros Hrun.
  destruct (LiNiMnCo_charge_Some b n Hrun) as (E0 & T0 & Q0 & V & HE & _ & _ & _ & ->).
  simpl. split.
  - unfold DOD_new. now apply Forall2_map_r.
  - exists E0. split; [exact HE|]. unfold DOD_old. now apply Forall2_map_r.
Qed.

(** C4, as the code has it. The updated energy is limited from above only: no
    entry of [current_energy] exceeds [max_energy], and an entry that is not
    nan is at most [max_energy] (when that is not nan either). *)
Theorem current_energy_at_most_max (b : Battery) (n : Numerics) (out : Battery) :
  charge b n = Some out ->
  Forall (fun e => (e >? max_energy b) = false /\
                   (is_nan e = false -> is_nan (max_energy b) = false ->
                    fle e (max_energy b)))
         (current_energy out).
Proof.
  intros Hrun.
  destruct (LiNiMnCo_charge_Some b n Hrun) as (E0 & T0 & Q0 & V & _ & _ & _ & _ & ->).
  simpl. unfold E_current.
  eapply Forall_impl; [|apply assign_where_gt].
  intros e He. split; [exact He|]. intros. now apply fgtb_false_fle.
Qed.

(** C3, as the code has it. The limits 272.65 K and 322.65 K are applied to
    the prior cell temperature [T_cell] the model works with; the cell and
    pack temperature it writes, [T_current[0] + np.dot(I,dT_dt)], is not
    limited. *)
Theorem cell_temperature_limited_on_entry (b : Battery) (n : Numerics)
  (out : Battery) :
  charge b n = Some out ->
  Forall (fun T' => is_nan T' = true \/ between 272.65 322.65 T') (T_cell b) /\
  exists E0 T0, first (current_energy b) = Some E0 /\
    first (temperature b) = Some T0 /\
    cell_temperature out
    = map (fun d => T0 + d)
          (dot (I n) (dT_dt np_sqrt np_exp np_log np_power np_pi b n E0)) /\
    pack_temperature out = cell_temperature out.
Proof.
  intros Hrun.
  destruct (LiNiMnCo_charge_Some b n Hrun) as (E0 & T0 & Q0 & V & HE & HT & _ & _ & ->).
  split.
  - rewrite T_cell_eq. apply Forall_map_all. intros x.
    apply clamp_nan_or_between. lra.
  - exists E0, T0. repeat split; assumption.
Qed.

(** C6, as the code has it. The value looked up from the discharge
    performance map is the under-load voltage of the cell; the sum of that
    value, the Thevenin voltage and [I_cell * R_0_aged] is written as the
    open-circuit voltage. Each pack-level voltage is the per-cell value times
    the series count. *)
Theorem open_circuit_voltage_is_the_sum (b : Battery) (n : Numerics)
  (out : Battery) :
  charge b n = Some out ->
  exists E0 V, first (current_energy b) = Some E0 /\
    V_Th np_exp odeint b n E0 = Some V /\
    cell_voltage_under_load out = V_ul0 b n E0 /\
    cell_voltage_open_circuit out
    = map2 fadd (map2 fadd (V_ul0 b n E0) V)
           (map2 fmul (cell_current out) (R_0_aged b n E0)) /\
    voltage_under_load out
    = map (fun v => v * of_Z (n_series b)) (cell_voltage_under_load out) /\
    voltage_open_circuit out
    = map (fun v => v * of_Z (n_series b)) (cell_voltage_open_circuit out) /\
    thevenin_voltage out = map (fun v => v * of_Z (n_series b)) V.
Proof.
  intros Hrun.
  destruct (LiNiMnCo_charge_Some b n Hrun) as (E0 & T0 & Q0 & V & HE & _ & _ & HV & ->).
  exists E0, V. simpl. rewrite V_ul_unchanged. repeat split; assumption.
Qed.

Lemma limited_I_cell (b : Battery) :
  Forall (fun i => is_nan i = false) (I_cell0 b) ->
  Forall (between 0 8) (I_cell b).
Proof.
  intros HI. rewrite I_cell_eq.
  apply (Forall_map_impl (P := fun i => is_nan i = false)); [|exact HI].
  intros i Hi. apply clamp_between; [lra | exact Hi].
Qed.

(** C10, as the code has it. The cell current passed on is
    [-I_bat/n_parallel] with the entries below 0 A set to 0 A and those above
    8 A set to 8 A: an entry that is not nan ends within [0 A, 8 A], a nan
    stays nan.  That array is the first column of the points of the response
    surface, the current of the Thevenin integration and the integrand of
    the throughput.  The cumulative throughput starts at [Q_prior[0]], and it
    does not decrease along the collocation points when the current holds no
    nan, the steps [np.diff] of the control points are finite and not
    negative, [Q_prior[0]] is finite and the unit of an hour is positive. *)
Theorem cell_current_limited_throughput_monotone_unless_nan (b : Battery)
  (n : Numerics) (out : Battery) :
  charge b n = Some out ->
  Forall2 (limited 0 8)
    (map (fun i => (- i) / of_Z (PackConfig.parallel (pack_config b)))
         (Inputs.current (inputs b)))
    (cell_current out) /\
  Forall (nan_or_between 0 8) (cell_current out) /\
  exists E0 Q0 V, first (current_energy b) = Some E0 /\
    first (charge_throughput b) = Some Q0 /\
    pts b n E0
    = map2 (fun p d => p ++ [d])
        (map2 (fun i T' => [i; T']) (cell_current out)
           (map (fun T' => T' - 272.65) (T_cell b)))
        (DOD_old b n E0) /\
    cell_voltage_under_load out
    = map (fun row => nth 1 row NaN)
          (PerformanceMap.Voltage (discharge_performance_map b) (pts b n E0)) /\
    compute_thevenin_votlage odeint (V_th0 b) (cell_current out)
      (C_Th np_exp b n E0) (R_Th np_exp b n E0) n = Some V /\
    thevenin_voltage out = map (fun v => v * of_Z (n_series b)) V /\
    cumulative_cell_charge_throughput out
    = Q0 :: map (fun c => Q0 + c / Units_hr)
              (cumtrapz (cell_current out) (Time.control_points (time n))) /\
    (Forall (fun i => is_nan i = false) (I_cell0 b) ->
     Forall (le_fin 0) (diff (Time.control_points (time n))) ->
     finite Q0 -> positive Units_hr ->
     Forall (between 0 8) (cell_current out) /\
     Sorted fle (cumulative_cell_charge_throughput out)).
Proof.
  intros Hrun.
  destruct (LiNiMnCo_charge_Some b n Hrun)
    as (E0 & T0 & Q0 & V & HE & _ & HQ0 & HV & ->).
  assert (H08 : (0 <= 8)%Q) by lra.
  simpl. split; [|split].
  - rewrite I_cell_eq. apply Forall2_map_r. intros r. now apply limited_clamp.
  - rewrite I_cell_eq. apply Forall_map_all. intros r.
    now apply nan_or_between_clamp.
  - exists E0, Q0, V. rewrite V_ul_unchanged.
    split; [exact HE|]. split; [exact HQ0|]. split; [reflexivity|].
    split; [reflexivity|]. split; [exact HV|]. split; [reflexivity|].
    split; [reflexivity|].
    intros HI Ht HQ Hhr.
    pose proof (limited_I_cell b HI) as Hlim.
    split; [exact Hlim|].
    unfold Q_total. apply sorted_throughput; try assumption.
    eapply Forall_impl; [|exact Hlim]. intros x. apply between_nonneg.
Qed.

End ChargeProperties.

(** ** The Thevenin voltage *)

(** Every entry after the first is the solution at the second control point
    [t[1]], for the parameters of its own collocation point. *)
Lemma compute_thevenin_votlage_entry
  (odeint : (npfloat -> npfloat -> npfloat) -> npfloat -> vec -> vec)
  (V_th0 : npfloat) (I_cell C_Th R_Th : vec) (n : Numerics) (i : nat) :
  (1 <= i < length (Time.control_points (time n)))%nat ->
  exists x,
    compute_thevenin_votlage odeint V_th0 I_cell C_Th R_Th n = Some x /\
    nth i x NaN
    = nth 1 (odeint (fun z t' => model z t' (nth i I_cell NaN) (nth i C_Th NaN)
                                   (nth i R_Th NaN))
               V_th0 (Time.control_points (time n))) NaN.
Proof.
  intros [Hi Hn]. unfold compute_thevenin_votlage.
  destruct (Time.control_points (time n)) as [|t0 t] eqn:Et; [simpl in Hn; lia|].
  eexists. split; [reflexivity|].
  destruct i as [|i]; [lia|]. simpl nth at 1. simpl length in *.
  set (f := fun i0 : nat => _).
  rewrite (nth_indep _ NaN (f O)) by (rewrite length_map, length_seq; lia).
  rewrite map_nth, seq_nth by lia. reflexivity.
Qed.

(** ** The correlation constants *)

Lemma correlation_constants_laminar (np_power : npfloat -> npfloat -> npfloat)
  (S_T S_L : npfloat) (Re_max : vec) :
  correlation_constants np_power S_T S_L Re_max = (Fin 0.51, Fin 0.5).
Proof.
  unfold correlation_constants. destruct (py_all Re_max); reflexivity.
Qed.

Lemma Forall_between_forallb (lo hi : npfloat) (a : vec) :
  Forall (between lo hi) a <-> forallb (betweenb lo hi) a = true.
Proof.
  rewrite forallb_forall, Forall_forall. unfold between, betweenb.
  split; intros H x Hx; specialize (H x Hx).
  - now apply andb_true_iff.
  - now apply andb_true_iff in H.
Qed.

(** With a single cell the run does not depend on the routines of the
    cell-bank branch. *)
Lemma single_cell_ignores_bank_routines
  (sq sq' ex lg lg' : npfloat -> npfloat) (pw pw' : npfloat -> npfloat -> npfloat)
  (pi pi' : npfloat)
  (od : (npfloat -> npfloat -> npfloat) -> npfloat -> vec -> vec)
  (hr' : npfloat) (b : Battery) (n : Numerics) :
  n_total b = 1%Z ->
  LiNiMnCo_charge sq ex lg pw pi od hr' b n
  = LiNiMnCo_charge sq' ex lg' pw' pi' od hr' b n.
Proof.
  intros H. unfold LiNiMnCo_charge, bind.
  destruct (first (current_energy b)) as [E0|]; [|reflexivity].
  destruct (first (temperature b)) as [T0|]; [|reflexivity].
  destruct (V_Th ex od b n E0) as [V|]; [|reflexivity].
  destruct (first (charge_throughput b)) as [Q0|]; [|reflexivity].
  unfold pack_outputs, T_current_new, dT_dt, P_net. rewrite H. reflexivity.
Qed.

(** ** The scenarios *)

Import Scenario.

Lemma charging_run : run charging segment = Some charging_out.
Proof. vm_compute. reflexivity. Qed.

Lemma draining_run : run draining segment = Some draining_out.
Proof. vm_compute. reflexivity. Qed.

Lemma nan_power_run : run nan_power segment = Some nan_power_out.
Proof. vm_compute. reflexivity. Qed.

Lemma nan_temperature_run : run nan_temperature segment = Some nan_temperature_out.
Proof. vm_compute. reflexivity. Qed.

Lemma zero_capacity_run : run zero_capacity segment = Some zero_capacity_out.
Proof. vm_compute. reflexivity. Qed.

Lemma nan_current_run : run nan_current segment = Some nan_current_out.
Proof. vm_compute. reflexivity. Qed.

Lemma series_of_three_run : run series_of_three segment = Some series_of_three_out.
Proof. vm_compute. reflexivity. Qed.

Lemma charging_finite : finite_inputs charging segment.
Proof.
  unfold finite_inputs. simpl.
  repeat split; repeat constructor; try discriminate.
  all: intro H; vm_compute in H; discriminate.
Qed.

Lemma charging_times : increasing_times (Time.control_points (time segment)).
Proof.
  split; simpl.
  - repeat constructor.
  - repeat constructor.
Qed.

(** *** Runs that satisfy the hypotheses of the theorems *)


Lemma depth_of_discharge_is_one_minus_soc_witness :
  Forall2 (fun s d => d = 1 - s) (state_of_charge charging_out)
    (depth_of_discharge charging_out) /\
  exists E0, first (current_energy charging) = Some E0 /\
    Forall2 (fun s d => d = 1 - s) (SOC_old charging segment E0)
      (DOD_old charging segment E0).
Proof.
  exact (@depth_of_discharge_is_one_minus_soc undefined1 exp_series undefined1
           undefined2 NaN (odeint_euler 50) hr charging segment charging_out
           charging_run).
Defined.

Lemma current_energy_at_most_max_witness :
  Forall (fun e => (e >? max_energy charging) = false /\
                   (is_nan e = false -> is_nan (max_energy charging) = false ->
                    fle e (max_energy charging)))
         (current_energy charging_out).
Proof.
  exact (@current_energy_at_most_max undefined1 exp_series undefined1
           undefined2 NaN (odeint_euler 50) hr charging segment charging_out
           charging_run).
Defined.

Lemma cell_temperature_limited_on_entry_witness :
  Forall (fun T' => is_nan T' = true \/ between 272.65 322.65 T')
    (T_cell charging) /\
  exists E0 T0, first (current_energy charging) = Some E0 /\
    first (temperature charging) = Some T0 /\
    cell_temperature charging_out
    = map (fun d => T0 + d)
          (dot (I segment)
             (dT_dt undefined1 exp_series undefined1 undefined2 NaN charging
                segment E0)) /\
    pack_temperature charging_out = cell_temperature charging_out.
Proof.
  exact (@cell_temperature_limited_on_entry undefined1 exp_series undefined1
           undefined2 NaN (odeint_euler 50) hr charging segment charging_out
           charging_run).
Defined.

Lemma open_circuit_voltage_is_the_sum_witness :
  exists E0 V, first (current_energy charging) = Some E0 /\
    V_Th exp_series (odeint_euler 50) charging segment E0 = Some V /\
    cell_voltage_under_load charging_out = V_ul0 charging segment E0 /\
    cell_voltage_open_circuit charging_out
    = map2 fadd (map2 fadd (V_ul0 charging segment E0) V)
           (map2 fmul (cell_current charging_out) (R_0_aged charging segment E0)) /\
    voltage_under_load charging_out
    = map (fun v => v * of_Z (n_series charging))
          (cell_voltage_under_load charging_out) /\
    voltage_open_circuit charging_out
    = map (fun v => v * of_Z (n_series charging))
          (cell_voltage_open_circuit charging_out) /\
    thevenin_voltage charging_out = map (fun v => v * of_Z (n_series charging)) V.
Proof.
  exact (@open_circuit_voltage_is_the_sum undefined1 exp_series undefined1
           undefined2 NaN (odeint_euler 50) hr charging segment charging_out
           charging_run).
Defined.

Lemma cell_current_limited_throughput_monotone_unless_nan_witness :
  Forall2 (limited 0 8)
    (map (fun i => (- i) / of_Z (PackConfig.parallel (pack_config charging)))
         (Inputs.current (inputs charging)))
    (cell_current charging_out) /\
  Forall (between 0 8) (cell_current charging_out) /\
  Sorted fle (cumulative_cell_charge_throughput charging_out) /\
  map canon (cell_current charging_out) = [Fin 8; Fin 8; Fin 8] /\
  map canon (cumulative_cell_charge_throughput charging_out)
  = [Fin 0; Fin (10 # 9); Fin (20 # 9)].
Proof.
  destruct (@cell_current_limited_throughput_monotone_unless_nan undefined1
              exp_series undefined1 undefined2 NaN (odeint_euler 50) hr
              charging segment charging_out charging_run)
    as (H1 & _ & E0 & Q0 & V & _ & HQ & _ & _ & _ & _ & _ & Hmono).
  simpl in HQ. injection HQ as <-.
  destruct Hmono as [H2 H3].
  - vm_compute. repeat constructor.
  - exact (nonneg_diff charging_times).
  - exact Logic.I.
  - vm_compute. reflexivity.
  - split; [exact H1|]. split; [exact H2|]. split; [exact H3|].
    split; vm_compute; reflexivity.
Defined.

(** *** Runs on which the claims fail *)

(** C3 fails as stated: charging at 8 A for 1000 s from 310 K, within the
    band, the model writes a cell and pack temperature above 333 K. *)
Lemma output_temperature_leaves_band :
  run charging segment = Some charging_out /\
  Forall (between 272.15 322.15) (cell_temperature charging) /\
  (333 <? nth 2 (cell_temperature charging_out) NaN) = true /\
  ~ Forall (between 272.15 322.15) (cell_temperature charging_out) /\
  ~ Forall (between 272.15 322.15) (pack_temperature charging_out).
Proof.
  split; [exact charging_run|]. split; [|split; [|split]].
  - apply Forall_between_forallb. vm_compute. reflexivity.
  - vm_compute. reflexivity.
  - rewrite Forall_between_forallb. vm_compute. discriminate.
  - rewrite Forall_between_forallb. vm_compute. discriminate.
Qed.

(** C4 fails as stated: with a net power of -1 W from an empty battery the
    updated energy is 0 J, -500 J and -1000 J. *)
Lemma current_energy_goes_negative :
  run draining segment = Some draining_out /\
  map canon (current_energy draining_out) = [Fin 0; Fin (-500); Fin (-1000)] /\
  ~ Forall (between 0 (max_energy draining)) (current_energy draining_out).
Proof.
  split; [exact draining_run|]. split.
  - vm_compute. reflexivity.
  - rewrite Forall_between_forallb. vm_compute. discriminate.
Qed.

(** C6 fails as stated: in the charging run the under-load voltage of the
    cell is the value looked up, 3.49 V at the first collocation point, and
    not that value plus the Thevenin voltage plus [I_cell * R_0_aged]
    (4.24774 V there), which is the open-circuit voltage. *)
Lemma under_load_voltage_is_not_the_sum :
  run charging segment = Some charging_out /\
  exists V, V_Th exp_series (odeint_euler 50) charging segment 20000 = Some V /\
    map canon (V_ul0 charging segment 20000)
    = [Fin 3.49; Fin (1531 # 400); Fin (197 # 50)] /\
    map canon V
    = [Fin 0; Fin (162701692801 # 250000000000); Fin 0.690526657451] /\
    map canon (map2 fmul (I_cell charging) (R_0_aged charging segment 20000))
    = [Fin (37887 # 50000); Fin (594699 # 800000); Fin (373 # 500)] /\
    map canon (cell_voltage_under_load charging_out)
    = [Fin 3.49; Fin (1531 # 400); Fin (197 # 50)] /\
    map canon (cell_voltage_open_circuit charging_out)
    = [Fin (212387 # 50000); Fin (1305420130301 # 250000000000);
       Fin 5.376526657451] /\
    cell_voltage_under_load charging_out
    <> map2 fadd (map2 fadd (V_ul0 charging segment 20000) V)
            (map2 fmul (I_cell charging) (R_0_aged charging segment 20000)) /\
    map canon (voltage_under_load charging_out)
    <> map canon
         (map (fun v => v * of_Z (n_series charging))
            (map2 fadd (map2 fadd (V_ul0 charging segment 20000) V)
               (map2 fmul (I_cell charging) (R_0_aged charging segment 20000)))).
Proof.
  split; [exact charging_run|].
  eexists. split; [vm_compute; reflexivity|].
  repeat split; try (vm_compute; reflexivity).
  - intro H. vm_compute in H. discriminate.
  - intro H. vm_compute in H. discriminate.
Qed.


(** C10 fails as stated: a nan in the pack current passes both limits.  With
    nan at the first collocation point the cell current passed on is nan
    there, and the cumulative throughput is nan from the second point on:
    not within [0 A, 8 A], not ordered. *)
Lemma nan_current_passes_the_limits :
  run nan_current segment = Some nan_current_out /\
  map canon (cell_current nan_current_out) = [NaN; Fin 8; Fin 8] /\
  map canon (cumulative_cell_charge_throughput nan_current_out)
  = [Fin 0; NaN; NaN] /\
  ~ Forall (between 0 8) (cell_current nan_current_out) /\
  ~ Sorted fle (cumulative_cell_charge_throughput nan_current_out).
Proof.
  split; [exact nan_current_run|].
  split; [vm_compute; reflexivity|].
  split; [vm_compute; reflexivity|].
  split.
  - rewrite Forall_between_forallb. vm_compute. discriminate.
  - intros H. inversion H as [|? ? _ Hhd]. inversion Hhd as [|? ? Hle].
    vm_compute in Hle. discriminate.
Qed.

(** *** Where the code departs from the claims *)

(** C1 (not met by the code). An energy delta with one nan among finite
    values comes out all nan, not the finite maximum 3; an all-nan delta
    comes out all nan, not zero; and a power series with one nan leaves
    [current_energy] all nan. *)
Theorem nan_energy_delta_spreads :
  sanitize [Fin 1; NaN; Fin 3] = [NaN; NaN; NaN] /\
  sanitize [NaN; NaN] = [NaN; NaN] /\
  run nan_power segment = Some nan_power_out /\
  current_energy nan_power_out = [NaN; NaN; NaN].
Proof.
  split; [reflexivity|]. split; [reflexivity|].
  split; [exact nan_power_run|]. reflexivity.
Qed.

(** C2 (not met by the code). For the RC circuit with time constant 1 s
    under 1 A, the entry of the output at 5 s, five time constants, is the
    solution at the second control point, 1 s: 0.6513 V, while the
    initial-value problem solved up to 5 s gives 0.9979 V (the closed form
    1 - exp(-5) is 0.9933 V, the steady state [I * R] is 1 V). *)
Theorem thevenin_voltage_stays_at_second_point :
  compute_thevenin_votlage (odeint_euler 10) 0 rc_ones rc_ones rc_ones rc_times
  = Some [Fin 0; nth 1 rc_solution NaN; nth 1 rc_solution NaN] /\
  rc_solution = [Fin 0; Fin 0.6513215599; Fin (498945837403 # 500000000000)] /\
  (nth 1 rc_solution NaN <? 0.66) = true /\
  (0.99 <? nth 2 rc_solution NaN) = true.
Proof.
  repeat split; vm_compute; reflexivity.
Qed.

(** C5 (not met by the code). Whatever the Reynolds numbers, the constants
    selected are the laminar ones, C = 0.51 and m = 0.5: [all(Re_max)] is a
    [bool], and neither [True] nor [False] exceeds 1000.  So it is for
    Reynolds numbers of 2000 and 3000, all above the threshold. *)
Theorem correlation_constants_never_turbulent
  (np_power : npfloat -> npfloat -> npfloat) (S_T S_L : npfloat) (Re_max : vec) :
  correlation_constants np_power S_T S_L Re_max = (Fin 0.51, Fin 0.5) /\
  correlation_constants np_power S_T S_L [Fin 2000; Fin 3000]
  = (Fin 0.51, Fin 0.5).
Proof.
  split; apply correlation_constants_laminar.
Qed.

(** C8 (not met by the code). In the draining run the recomputed state of
    charge [E_current / E_max] is negative at the second and third
    collocation points; it is limited to zero before the voltage is masked,
    and the under-load voltage stays at the value looked up, 3.2 V. *)
Theorem under_load_voltage_not_zeroed :
  run draining segment = Some draining_out /\
  map canon (SOC_new0 draining segment 0) = [Fin 0; Fin (-1 # 80); Fin (-1 # 40)] /\
  map canon (state_of_charge draining_out) = [Fin 0; Fin 0; Fin 0] /\
  map canon (cell_voltage_under_load draining_out)
  = [Fin (16 # 5); Fin (16 # 5); Fin (16 # 5)] /\
  map canon (voltage_under_load draining_out)
  = [Fin (16 # 5); Fin (16 # 5); Fin (16 # 5)].
Proof.
  split; [exact draining_run|]. repeat split; vm_compute; reflexivity.
Qed.

(** * Further properties of the model *)

(** ** The nan handling, on every input *)

(** X1. The nan handling of the energy delta returns its argument when no
    entry is nan, and otherwise an array of the same length whose every
    entry is nan: it never yields zeros or a finite maximum.  Applying it
    twice is applying it once. *)
Theorem sanitize_is_identity_or_all_nan (E : vec) :
  sanitize E = (if isnan_any E then map (fun _ => NaN) E else E) /\
  length (sanitize E) = length E /\
  sanitize (sanitize E) = sanitize E.
Proof.
  split; [|split].
  - destruct (isnan_any E) eqn:H.
    + now apply sanitize_spreads_nan.
    + now apply sanitize_keeps_finite.
  - apply length_sanitize.
  - destruct (isnan_any E) eqn:H.
    + rewrite (sanitize_spreads_nan _ H).
      destruct E as [|x E]; [discriminate|].
      rewrite sanitize_spreads_nan by reflexivity.
      now rewrite map_map.
    + rewrite (sanitize_keeps_finite _ H). now apply sanitize_keeps_finite.
Qed.

(** ** The Thevenin integrator *)

Section Thevenin.

Variable odeint : (npfloat -> npfloat -> npfloat) -> npfloat -> vec -> vec.

Lemma compute_thevenin_votlage_Some (V_th0 : npfloat) (I_cell C_Th R_Th : vec)
  (n : Numerics) (x : vec) :
  compute_thevenin_votlage odeint V_th0 I_cell C_Th R_Th n = Some x ->
  Time.control_points (time n) <> [] /\
  length x = length (Time.control_points (time n)) /\
  first x = Some V_th0.
Proof.
  unfold compute_thevenin_votlage.
  destruct (Time.control_points (time n)) as [|t0 t]; [discriminate|].
  intros H. injection H as <-. split; [discriminate|].
  simpl. rewrite length_map, length_seq. split; [f_equal; lia | reflexivity].
Qed.

(** X2. When [compute_thevenin_votlage] returns, there is at least one
    control point, the output has one entry per control point and it starts
    with the initial value [V_th0]. *)
Theorem compute_thevenin_votlage_shape (V_th0 : npfloat) (I_cell C_Th R_Th : vec)
  (n : Numerics) (x : vec) :
  compute_thevenin_votlage odeint V_th0 I_cell C_Th R_Th n = Some x ->
  Time.control_points (time n) <> [] /\
  length x = length (Time.control_points (time n)) /\
  first x = Some V_th0.
Proof.
  unfold compute_thevenin_votlage.
  destruct (Time.control_points (time n)) as [|t0 t]; [discriminate|].
  intros H. injection H as <-. split; [discriminate|].
  simpl. rewrite length_map, length_seq. split; [f_equal; lia | reflexivity].
Qed.

(** X3. The parameters of the first collocation point ([I_cell[0]],
    [C_Th[0]], [R_Th[0]]) are never read. *)
Theorem compute_thevenin_votlage_skips_first (V_th0 : npfloat)
  (i0 i0' c0 c0' r0 r0' : npfloat) (I_cell C_Th R_Th : vec) (n : Numerics) :
  compute_thevenin_votlage odeint V_th0 (i0 :: I_cell) (c0 :: C_Th) (r0 :: R_Th) n
  = compute_thevenin_votlage odeint V_th0 (i0' :: I_cell) (c0' :: C_Th)
      (r0' :: R_Th) n.
Proof.
  unfold compute_thevenin_votlage.
  destruct (length (Time.control_points (time n))) as [|k]; [reflexivity|].
  do 2 f_equal. apply map_ext_in. intros i Hi. apply in_seq in Hi.
  destruct i as [|i]; [lia|]. reflexivity.
Qed.

End Thevenin.

(** ** The Thevenin equation *)

Lemma nonzero_Qeq_bool (q : Q) : ~ (q == 0)%Q -> Qeq_bool q 0 = false.
Proof.
  intros H. apply not_true_iff_false. intro E. apply H. now apply Qeq_bool_eq.
Qed.

(** X4. The right-hand side of the Thevenin equation vanishes at
    [V = I * R_Th], and for a positive resistance and capacitance it is
    positive below that value and negative above: the transient voltage
    relaxes towards [I * R_Th]. *)
Theorem model_relaxes_to_IR (z t I_cell C_Th R_Th : npfloat) :
  positive R_Th -> positive C_Th -> finite I_cell -> finite z ->
  feq (model (I_cell * R_Th) t I_cell C_Th R_Th) 0 /\
  (positive (I_cell * R_Th - z) -> positive (model z t I_cell C_Th R_Th)) /\
  (positive (z - I_cell * R_Th) -> positive (- model z t I_cell C_Th R_Th)).
Proof.
  destruct R_Th as [| |r|], C_Th as [| |c|], I_cell as [| |i|], z as [| |v|];
    simpl; try contradiction.
  intros Hr Hc _ _.
  assert (Hc0 : ~ (c == 0)%Q) by (intro E; rewrite E in Hc; now apply Qlt_irrefl in Hc).
  assert (Hr0 : ~ (r == 0)%Q) by (intro E; rewrite E in Hr; now apply Qlt_irrefl in Hr).
  assert (Hrc : (0 < r * c)%Q) by (apply Qmult_lt_0_compat; assumption).
  assert (Hrc0 : ~ (r * c == 0)%Q)
    by (intro E; rewrite E in Hrc; now apply Qlt_irrefl in Hrc).
  unfold model. simpl.
  rewrite (nonzero_Qeq_bool Hc0), (nonzero_Qeq_bool Hrc0). simpl.
  assert (Hform : forall w, (i / c + - (w / (r * c)) == (i * r + - w) / (r * c))%Q)
    by (intros w; field; split; assumption).
  split; [|split].
  - rewrite Hform. field. split; assumption.
  - intros H. rewrite Hform. apply Qlt_shift_div_l; [exact Hrc|]. lra.
  - intros H.
    assert (E : (- (i / c + - (v / (r * c))) == (v + - (i * r)) / (r * c))%Q)
      by (field; split; assumption).
    rewrite E. apply Qlt_shift_div_l; [exact Hrc|]. lra.
Qed.

(** ** Values within the limits *)

Lemma clamp_id (lo hi : Q) (x : npfloat) :
  between (Fin lo) (Fin hi) x -> clamp lo hi x = x.
Proof.
  intros H. destruct (between_finite H) as [q [-> [H1 H2]]].
  unfold clamp. simpl.
  assert (E1 : Qlt_bool q lo = false) by now apply Qlt_bool_false.
  rewrite E1. simpl.
  assert (E2 : Qlt_bool hi q = false) by now apply Qlt_bool_false.
  now rewrite E2.
Qed.

Lemma clamp_map_id (lo hi : Q) (a : vec) :
  Forall (between (Fin lo) (Fin hi)) a -> map (clamp lo hi) a = a.
Proof.
  induction 1 as [|x a Hx Ha IH]; simpl; [reflexivity|].
  now rewrite (clamp_id Hx), IH.
Qed.

Section MoreChargeProperties.

Variables np_sqrt np_exp np_log : npfloat -> npfloat.
Variable np_power : npfloat -> npfloat -> npfloat.
Variable np_pi : npfloat.
Variable odeint : (npfloat -> npfloat -> npfloat) -> npfloat -> vec -> vec.
Variable Units_hr : npfloat.

Local Abbreviation charge :=
  (LiNiMnCo_charge np_sqrt np_exp np_log np_power np_pi odeint Units_hr).


(** X6. The model raises ([IndexError] on a first entry) when the prior
    energy, the prior temperature or the prior throughput is an empty array,
    or when there is no control point. *)
Theorem empty_prior_state_raises (b : Battery) (n : Numerics) :
  current_energy b = [] \/ temperature b = [] \/ charge_throughput b = [] \/
  Time.control_points (time n) = [] ->
  charge b n = None.
Proof.
  intros H. unfold LiNiMnCo_charge, bind.
  destruct (first (current_energy b)) as [E0|] eqn:HE; [|reflexivity].
  destruct (first (temperature b)) as [T0|] eqn:HT; [|reflexivity].
  destruct (V_Th np_exp odeint b n E0) as [V|] eqn:HV; [|reflexivity].
  destruct (first (charge_throughput b)) as [Q0|] eqn:HQ; [|reflexivity].
  exfalso. destruct H as [H | [H | [H | H]]].
  - rewrite H in HE. discriminate.
  - rewrite H in HT. discriminate.
  - rewrite H in HQ. discriminate.
  - unfold V_Th, compute_thevenin_votlage in HV. rewrite H in HV. discriminate.
Qed.

(** X7. The prior energy and the prior throughput enter through their first
    entries only: two energy arrays with the same first entry give the same
    result, and two throughput arrays with the same first entry give results
    that differ in the attribute [charge_throughput] itself at most, which
    the model leaves as it was. *)
Theorem only_first_entries_of_prior_state (b : Battery) (n : Numerics)
  (e e' q q' : vec) :
  first e = first e' -> first q = first q' ->
  charge (with_current_energy e b) n = charge (with_current_energy e' b) n /\
  option_map (with_charge_throughput [])
    (charge (with_charge_throughput q b) n)
  = option_map (with_charge_throughput [])
      (charge (with_charge_throughput q' b) n).
Proof.
  intros He Hq. split.
  - unfold LiNiMnCo_charge, bind. simpl current_energy. rewrite He.
    destruct (first e') as [E0|]; reflexivity.
  - unfold LiNiMnCo_charge, bind. simpl charge_throughput. simpl temperature.
    simpl current_energy.
    destruct (first (current_energy b)) as [E0|]; [|reflexivity].
    destruct (first (temperature b)) as [T0|]; [|reflexivity].
    change (V_Th np_exp odeint (with_charge_throughput q b) n E0)
      with (V_Th np_exp odeint (with_charge_throughput q' b) n E0).
    destruct (V_Th np_exp odeint (with_charge_throughput q' b) n E0) as [V|];
      [|reflexivity].
    rewrite Hq. destruct (first q') as [Q0|]; reflexivity.
Qed.

(** *** Shapes *)

Lemma length_map2 {A B C : Type} (f : A -> B -> C) (l : list A) (m : list B) :
  length (map2 f l m) = Nat.min (length l) (length m).
Proof.
  revert m. induction l as [|a l IH]; intros [|c m]; simpl; auto.
Qed.

Lemma length_map3 {A B C D : Type} (f : A -> B -> C -> D)
  (l : list A) (m : list B) (k : list C) :
  length (map3 f l m k) = Nat.min (length l) (Nat.min (length m) (length k)).
Proof.
  revert m k. induction l as [|a l IH]; intros [|c m] [|d k]; simpl; auto.
Qed.

Lemma length_dot (M : list vec) (v : vec) : length (dot M v) = length M.
Proof. apply length_map. Qed.

Lemma length_assign_where (cond : npfloat -> bool) (v : npfloat) (a : vec) :
  length (assign_where cond v a) = length a.
Proof. apply length_map. Qed.

Lemma length_diff (x : vec) : length (diff x) = (length x - 1)%nat.
Proof.
  induction x as [|a x IH]; [reflexivity|].
  destruct x as [|c x]; [reflexivity|].
  change (diff (a :: c :: x)) with (fsub c a :: diff (c :: x)).
  simpl length in *. rewrite IH. lia.
Qed.

Lemma length_adjacent_sums (y : vec) :
  length (adjacent_sums y) = (length y - 1)%nat.
Proof.
  induction y as [|a y IH]; [reflexivity|].
  destruct y as [|c y]; [reflexivity|].
  change (adjacent_sums (a :: c :: y)) with (fadd c a :: adjacent_sums (c :: y)).
  simpl length in *. rewrite IH. lia.
Qed.

Lemma length_cumsum_from (acc : npfloat) (a : vec) :
  length (cumsum_from acc a) = length a.
Proof.
  revert acc. induction a as [|x a IH]; intros acc; simpl; auto.
Qed.

Lemma length_cumsum (a : vec) : length (cumsum a) = length a.
Proof.
  destruct a; simpl; [reflexivity|]. now rewrite length_cumsum_from.
Qed.

Lemma length_cumtrapz (y x : vec) :
  length (cumtrapz y x) = Nat.min (length x - 1) (length y - 1).
Proof.
  unfold cumtrapz.
  now rewrite length_cumsum, length_map, length_map2, length_diff,
    length_adjacent_sums.
Qed.

Lemma length_SOC_old (b : Battery) (n : Numerics) (E0 : npfloat) :
  length (SOC_old b n E0) = length (I n).
Proof.
  unfold SOC_old, SOC_old0, initial_discharge_state.
  now rewrite !length_assign_where, !length_map, length_dot.
Qed.

Lemma length_I_cell (b : Battery) : length (I_cell b) = length (I_bat b).
Proof.
  unfold I_cell, I_cell0. now rewrite !length_assign_where, length_map.
Qed.

Lemma length_E_current (b : Battery) (n : Numerics) (E0 : npfloat) :
  length (E_current b n E0) = length (I n).
Proof.
  unfold E_current, E_current_sum, E_bat, E_bat0.
  now rewrite length_assign_where, length_map, length_sanitize, length_dot.
Qed.

(** X8. On well-shaped inputs with [N] control points every column the model
    writes for the energy, the state of charge, the depth of discharge, the
    temperature, the cell current, the Thevenin voltage and the throughput
    has [N] entries. *)
Theorem outputs_have_one_entry_per_control_point (b : Battery) (n : Numerics)
  (out : Battery) :
  charge b n = Some out ->
  well_shaped b n ->
  let N := length (Time.control_points (time n)) in
  length (current_energy out) = N /\
  length (state_of_charge out) = N /\
  length (depth_of_discharge out) = N /\
  length (cell_temperature out) = N /\
  length (pack_temperature out) = N /\
  length (cell_current out) = N /\
  length (thevenin_voltage out) = N /\
  length (cumulative_cell_charge_throughput out) = N /\
  length (cell_charge_throughput out) = N.
Proof.
  intros Hrun (HI & HP & HT & HM & Hrows) N.
  destruct (@LiNiMnCo_charge_Some np_sqrt np_exp np_log np_power np_pi odeint Units_hr b n out Hrun)
    as (E0 & T0 & Q0 & V & _ & _ & _ & HV & ->).
  simpl.
  assert (HE : length (E_current b n E0) = N).
  { rewrite length_E_current. exact HM. }
  assert (HS : length (SOC_new b n E0) = N).
  { unfold SOC_new, SOC_new0. now rewrite !length_assign_where, length_map. }
  assert (HIc : length (I_cell b) = N) by (now rewrite length_I_cell).
  unfold V_Th in HV.
  destruct (compute_thevenin_votlage_Some odeint (V_th0 b) (I_cell b)
              (C_Th np_exp b n E0) (R_Th np_exp b n E0) n HV)
    as (Hne & HlenV & _).
  assert (HN : (1 <= N)%nat).
  { unfold N. destruct (Time.control_points (time n)); [contradiction|].
    simpl. lia. }
  repeat split.
  - exact HE.
  - exact HS.
  - unfold DOD_new. now rewrite length_map.
  - unfold T_current_new. now rewrite length_map, length_dot.
  - unfold T_current_new. now rewrite length_map, length_dot.
  - exact HIc.
  - now rewrite length_map.
  - unfold Q_total. simpl. rewrite length_map, length_cumtrapz, HIc.
    fold N. lia.
  - unfold Q_segment. simpl. rewrite length_map, length_cumtrapz, HIc.
    fold N. lia.
Qed.

End MoreChargeProperties.

(** ** A nan in the power series *)

Lemma fadd_nan_r (x : npfloat) : x + NaN = NaN.
Proof. now destruct x. Qed.

Lemma fmul_nan_r (x : npfloat) : x * NaN = NaN.
Proof. now destruct x. Qed.

Lemma fdiv_nan_r (x : npfloat) : x / NaN = NaN.
Proof. now destruct x. Qed.

Lemma fltb_nan_r (x : npfloat) : (x <? NaN) = false.
Proof. now destruct x. Qed.

Lemma fold_add_nan (l : vec) : fold_left fadd l NaN = NaN.
Proof. induction l as [|x l IH]; simpl; [reflexivity | exact IH]. Qed.

Lemma fold_add_In_nan (l : vec) (acc : npfloat) :
  In NaN l -> fold_left fadd l acc = NaN.
Proof.
  revert acc. induction l as [|x l IH]; intros acc H; simpl in *; [contradiction|].
  destruct H as [-> | H].
  - rewrite fadd_nan_r. apply fold_add_nan.
  - now apply IH.
Qed.

Lemma In_nan_map2_r (f : npfloat -> npfloat -> npfloat) (l m : vec) :
  (forall x, f x NaN = NaN) -> (length m <= length l)%nat ->
  In NaN m -> In NaN (map2 f l m).
Proof.
  intros Hf. revert l. induction m as [|y m IH]; intros l Hlen H;
    simpl in *; [contradiction|].
  destruct l as [|x l]; simpl in *; [lia|].
  destruct H as [-> | H].
  - left. apply Hf.
  - right. apply IH; [lia | exact H].
Qed.

Lemma In_nan_map2_l (f : npfloat -> npfloat -> npfloat) (l m : vec) :
  (forall y, f NaN y = NaN) -> (length l <= length m)%nat ->
  In NaN l -> In NaN (map2 f l m).
Proof.
  intros Hf. revert m. induction l as [|x l IH]; intros m Hlen H;
    simpl in *; [contradiction|].
  destruct m as [|y m]; simpl in *; [lia|].
  destruct H as [-> | H].
  - left. apply Hf.
  - right. apply IH; [lia | exact H].
Qed.

Lemma dot_row_nan (r v : vec) :
  (length v <= length r)%nat -> In NaN v -> dot_row r v = NaN.
Proof.
  intros Hlen H. unfold dot_row. apply fold_add_In_nan.
  apply In_nan_map2_r; auto using fmul_nan_r.
Qed.

Lemma dot_nan (M : list vec) (v : vec) :
  Forall (fun r => length r = length v) M -> In NaN v -> all_nan (dot M v).
Proof.
  intros HM H. unfold dot, all_nan.
  apply (Forall_map_impl (P := fun r => length r = length v)); [|exact HM].
  intros r Hr. apply dot_row_nan; [lia | exact H].
Qed.

Lemma all_nan_map (f : npfloat -> npfloat) (a : vec) :
  f NaN = NaN -> all_nan a -> all_nan (map f a).
Proof.
  intros Hf. unfold all_nan. apply Forall_map_impl. now intros x ->.
Qed.

Lemma all_nan_isnan_any (a : vec) : all_nan a -> a <> [] -> isnan_any a = true.
Proof.
  intros Ha Hne. destruct Ha as [|x a -> _]; [contradiction|]. reflexivity.
Qed.

Lemma all_nan_sanitize (a : vec) : all_nan a -> all_nan (sanitize a).
Proof.
  intros Ha. destruct (isnan_any a) eqn:E.
  - rewrite (sanitize_spreads_nan _ E). unfold all_nan. now apply Forall_map_all.
  - now rewrite (sanitize_keeps_finite _ E).
Qed.

Section NanPower.

Variable b : Battery.
Variable n : Numerics.
Variable E0 : npfloat.
Hypothesis Hshape : well_shaped b n.

Lemma length_Q_heat_gen :
  length (Q_heat_gen b n E0) = length (Time.control_points (time n)).
Proof.
  destruct Hshape as (HI & HP & HT & HM & Hrows).
  unfold Q_heat_gen, q_dot_joule, q_dot_entropy, i_cell, I_cell0, delta_S, T_cell.
  rewrite length_map2, length_map3, !length_map, !length_assign_where.
  rewrite length_SOC_old. unfold I, I_bat. rewrite HI, HT, HM. lia.
Qed.

Lemma length_P : length (P b n E0) = length (Time.control_points (time n)).
Proof.
  destruct Hshape as (HI & HP & HT & HM & Hrows).
  unfold P, P_loss, P_bat. rewrite length_map2, length_map, length_Q_heat_gen, HP.
  lia.
Qed.

Lemma nan_power_nan_energy :
  In NaN (Inputs.power_in (inputs b)) -> all_nan (E_current b n E0).
Proof.
  intros Hnan.
  assert (HP : In NaN (P b n E0)).
  { unfold P. apply In_nan_map2_l; [reflexivity| |exact Hnan].
    unfold P_loss. rewrite length_map, length_Q_heat_gen.
    destruct Hshape as (_ & HP & _). unfold P_bat. now rewrite HP. }
  assert (H0 : all_nan (E_bat0 b n E0)).
  { unfold E_bat0. apply dot_nan; [|exact HP].
    destruct Hshape as (_ & _ & _ & _ & Hrows). unfold I.
    eapply Forall_impl; [|exact Hrows]. intros r Hr. simpl in Hr.
    now rewrite length_P. }
  unfold E_current, E_current_sum, E_bat, assign_where.
  apply all_nan_map; [unfold fgtb; now rewrite fltb_nan_r|].
  apply all_nan_map; [reflexivity|].
  now apply all_nan_sanitize.
Qed.

Lemma nan_power_nan_soc :
  In NaN (Inputs.power_in (inputs b)) ->
  all_nan (SOC_new b n E0) /\ all_nan (DOD_new b n E0).
Proof.
  intros Hnan. pose proof (nan_power_nan_energy Hnan) as HE.
  assert (HS : all_nan (SOC_new b n E0)).
  { rewrite SOC_new_eq. apply all_nan_map; [reflexivity|].
    unfold SOC_new0. now apply all_nan_map. }
  split; [exact HS|]. unfold DOD_new. now apply all_nan_map.
Qed.

End NanPower.

(** X9. On well-shaped inputs a single nan in the power series makes every
    entry of the updated energy, of the state of charge and of the depth of
    discharge nan: the nan spreads through the integration and is not
    repaired. *)
Theorem nan_power_spoils_the_segment
  (np_sqrt np_exp np_log : npfloat -> npfloat)
  (np_power : npfloat -> npfloat -> npfloat) (np_pi : npfloat)
  (odeint : (npfloat -> npfloat -> npfloat) -> npfloat -> vec -> vec)
  (Units_hr : npfloat) (b : Battery) (n : Numerics) (out : Battery) :
  LiNiMnCo_charge np_sqrt np_exp np_log np_power np_pi odeint Units_hr b n
  = Some out ->
  well_shaped b n ->
  In NaN (Inputs.power_in (inputs b)) ->
  all_nan (current_energy out) /\
  all_nan (state_of_charge out) /\
  all_nan (depth_of_discharge out) /\
  current_energy out <> [].
Proof.
  intros Hrun Hshape Hnan.
  destruct (@LiNiMnCo_charge_Some np_sqrt np_exp np_log np_power np_pi odeint
              Units_hr b n out Hrun)
    as (E0 & T0 & Q0 & V & _ & _ & _ & _ & Hout).
  subst out. simpl in *.
  pose proof (length_E_current b n E0) as Hlen.
  pose proof Hshape as Hshape'.
  destruct Hshape as (HsI & HsP & HsT & HsM & HsR).
  unfold I in Hlen. rewrite HsM in Hlen.
  destruct (nan_power_nan_soc E0 Hshape' Hnan) as [HS HD].
  repeat split; try assumption.
  - now apply nan_power_nan_energy.
  - intro Hnil. rewrite Hnil in Hlen. simpl in Hlen.
    rewrite <- Hlen in HsP.
    destruct (Inputs.power_in (inputs b)); [contradiction | discriminate].
Qed.

(** ** The losses *)

Lemma le_fin_refl (x : npfloat) : finite x -> le_fin x x.
Proof. destruct x; simpl; try contradiction. intros _. apply Qle_refl. Qed.

Lemma le_fin_add (a a' x x' : npfloat) :
  le_fin a a' -> le_fin x x' -> le_fin (a + x) (a' + x').
Proof.
  destruct a, a', x, x'; simpl; try contradiction. intros; lra.
Qed.

Lemma le_fin_mul_nonneg (r x y : npfloat) :
  le_fin 0 r -> le_fin x y -> le_fin (r * x) (r * y).
Proof.
  destruct r, x, y; simpl; try contradiction. intros Hr Hxy.
  rewrite (Qmult_comm q q0), (Qmult_comm q q1).
  now apply Qmult_le_compat_r.
Qed.

Lemma le_fin_sub_abs (p l : npfloat) :
  finite (p - fabs l) -> le_fin (p - fabs l) p.
Proof.
  destruct p, l; simpl; try contradiction. intros _.
  pose proof (Qabs_nonneg q0). lra.
Qed.

Lemma le_fin_div_pos (x y M : npfloat) :
  positive M -> le_fin x y -> le_fin (x / M) (y / M).
Proof.
  destruct M as [| |m|], x, y; simpl; try contradiction. intros Hm Hxy.
  assert (E : Qeq_bool m 0 = false).
  { apply nonzero_Qeq_bool. intro E. rewrite E in Hm. now apply Qlt_irrefl in Hm. }
  rewrite E. simpl. unfold Qdiv. apply Qmult_le_compat_r; [exact Hxy|].
  apply Qlt_le_weak. now apply Qinv_lt_0_compat.
Qed.

Lemma le_fin_one_minus (x y : npfloat) : le_fin x y -> le_fin (1 - y) (1 - x).
Proof. destruct x, y; simpl; try contradiction. intros; lra. Qed.

Lemma le_fin_clamp (lo hi : Q) (x y : npfloat) :
  (lo <= hi)%Q -> le_fin x y -> le_fin (clamp lo hi x) (clamp lo hi y).
Proof.
  intros Hlh. destruct x as [| |a|], y as [| |c|]; simpl; try contradiction.
  intros Hac. unfold clamp. simpl.
  destruct (Qlt_bool a lo) eqn:E1; destruct (Qlt_bool c lo) eqn:E2; simpl;
    repeat match goal with
      | |- context [Qlt_bool ?u ?v] => destruct (Qlt_bool u v) eqn:?; simpl
      end;
    repeat match goal with
      | H : Qlt_bool _ _ = true |- _ => apply Qlt_bool_true in H
      | H : Qlt_bool _ _ = false |- _ => apply Qlt_bool_false in H
      end;
    lra.
Qed.

(** The masked assignment [a[a > M] = M] never raises an entry. *)
Lemma le_fin_cap (M e e' : npfloat) :
  finite M -> le_fin e e' -> le_fin (if e >? M then M else e) e'.
Proof.
  destruct M as [| |m|], e as [| |a|], e' as [| |c|]; simpl; try contradiction.
  intros _ Hac. unfold fgtb. simpl. destruct (Qlt_bool m a) eqn:E; simpl.
  - apply Qlt_bool_true in E. lra.
  - exact Hac.
Qed.

Lemma Forall2_map_mono {A B C D : Type} (R : A -> B -> Prop) (R' : C -> D -> Prop)
  (f : A -> C) (g : B -> D) (l : list A) (m : list B) :
  (forall a c, R a c -> R' (f a) (g c)) ->
  Forall2 R l m -> Forall2 R' (map f l) (map g m).
Proof.
  intros Hf. induction 1; simpl; constructor; auto.
Qed.

Lemma Forall2_map_same {A C D : Type} (Pa : A -> Prop) (R' : C -> D -> Prop)
  (f : A -> C) (g : A -> D) (l : list A) :
  (forall a, Pa a -> R' (f a) (g a)) ->
  Forall Pa l -> Forall2 R' (map f l) (map g l).
Proof.
  intros Hf. induction 1; simpl; constructor; auto.
Qed.

Lemma Forall2_sub_abs (l m : vec) :
  length l = length m ->
  Forall finite (map2 (fun p x => p - fabs x) l m) ->
  Forall2 le_fin (map2 (fun p x => p - fabs x) l m) l.
Proof.
  revert m. induction l as [|p l IH]; intros [|x m] Hlen H; simpl in *;
    try discriminate; try constructor.
  - apply le_fin_sub_abs. now inversion H.
  - apply IH; [lia | now inversion H].
Qed.

Lemma le_fin_fold_products (r v w : vec) (acc acc' : npfloat) :
  Forall (le_fin 0) r -> Forall2 le_fin v w -> le_fin acc acc' ->
  le_fin (fold_left fadd (map2 fmul r v) acc)
         (fold_left fadd (map2 fmul r w) acc').
Proof.
  intros Hr. revert v w acc acc'.
  induction Hr as [|x r Hx Hr IH]; intros v w acc acc' Hvw Hacc; simpl.
  - exact Hacc.
  - destruct Hvw as [|a c v w Hac Hvw]; simpl; [exact Hacc|].
    apply IH; [exact Hvw|]. apply le_fin_add; [exact Hacc|].
    now apply le_fin_mul_nonneg.
Qed.

Lemma le_fin_dot (M : list vec) (v w : vec) :
  Forall (Forall (le_fin 0)) M -> Forall2 le_fin v w ->
  Forall2 le_fin (dot M v) (dot M w).
Proof.
  intros HM Hvw. unfold dot.
  apply (Forall2_map_same (Pa := Forall (le_fin 0))); [|exact HM].
  intros r Hr. unfold dot_row. apply le_fin_fold_products; try assumption.
  simpl. apply Qle_refl.
Qed.


(** ** The heat fractions *)

Lemma Qsign_zero (a : Q) : (a == 0)%Q -> Qsign a = Eq.
Proof.
  unfold Qsign, Qeq. simpl. intros H. rewrite Z.mul_1_r in H. now rewrite H.
Qed.

Lemma zero_finite (x : npfloat) : feq x 0 -> finite x.
Proof. destruct x; simpl; tauto. Qed.

Lemma zero_neg (x : npfloat) : feq x 0 -> feq (- x) 0.
Proof. destruct x; simpl; try tauto. intros H. rewrite H. reflexivity. Qed.

Lemma zero_mul_r (x y : npfloat) : finite x -> feq y 0 -> feq (x * y) 0.
Proof.
  destruct x, y; simpl; try tauto. intros _ H. rewrite H. ring.
Qed.

Lemma zero_mul_l (x y : npfloat) : feq x 0 -> finite y -> feq (x * y) 0.
Proof.
  destruct x, y; simpl; try tauto. intros H _. rewrite H. ring.
Qed.

Lemma zero_add (x y : npfloat) : feq x 0 -> feq y 0 -> feq (x + y) 0.
Proof.
  destruct x, y; simpl; try tauto. intros H1 H2. rewrite H1, H2. reflexivity.
Qed.

Lemma zero_div (x y : npfloat) : feq x 0 -> nonzero y -> feq (x / y) 0.
Proof.
  destruct x, y; simpl; try tauto. intros H Hy.
  rewrite (nonzero_Qeq_bool Hy). simpl. rewrite H. field. exact Hy.
Qed.

(** 0/0: both fractions are nan when both heat terms are zero. *)
Lemma fractions_of_zero (j e : npfloat) :
  feq j 0 -> feq e 0 -> j / (j + e) = NaN /\ e / (j + e) = NaN.
Proof.
  destruct j as [| |a|], e as [| |c|]; simpl; try tauto. intros Ha Hc.
  assert (E : Qeq_bool (a + c) 0 = true).
  { apply Qeq_bool_iff. rewrite Ha, Hc. reflexivity. }
  rewrite E, (Qsign_zero Ha), (Qsign_zero Hc). split; reflexivity.
Qed.

Lemma opposite_infinities (a c : Q) :
  (a + c == 0)%Q -> inf_of_sign (Qsign a) + inf_of_sign (Qsign c) = NaN.
Proof.
  destruct a as [an ad], c as [cn cd]. unfold Qsign, Qeq. simpl.
  rewrite Z.mul_1_r. intros H.
  destruct (Z.compare_spec an 0), (Z.compare_spec cn 0); simpl;
    try reflexivity; exfalso; nia.
Qed.

(** Where the fractions are defined they sum to one. *)
Lemma fractions_sum (j e : npfloat) :
  finite j -> finite e ->
  let s := j / (j + e) + e / (j + e) in feq s 1 \/ s = NaN.
Proof.
  destruct j as [| |a|], e as [| |c|]; simpl; try tauto. intros _ _.
  destruct (Qeq_bool (a + c) 0) eqn:E.
  - right. apply Qeq_bool_eq in E. now apply opposite_infinities.
  - left. simpl. apply Qeq_bool_neq in E. field. exact E.
Qed.

Lemma map2_fadd_map2 (f g : npfloat -> npfloat -> npfloat) (l m : vec) :
  map2 fadd (map2 f l m) (map2 g l m) = map2 (fun x y => f x y + g x y) l m.
Proof.
  revert m. induction l as [|x l IH]; intros [|y m]; simpl; auto.
  now rewrite IH.
Qed.

Section Heat.

Variable b : Battery.
Variable n : Numerics.
Variable E0 : npfloat.
Hypothesis Hin : finite_inputs b n.
Hypothesis HE0 : finite E0.

Lemma finite_q_dot_joule : Forall finite (q_dot_joule b).
Proof.
  unfold q_dot_joule. apply (Forall_map_impl (P := finite)).
  - intros i Hi. apply finite_div; [now apply finite_pow|].
    simpl. intro H. vm_compute in H. discriminate.
  - now apply finite_i_cell with (n := n).
Qed.

Lemma finite_q_dot_entropy : Forall finite (q_dot_entropy b n E0).
Proof.
  unfold q_dot_entropy.
  apply (Forall_map3 (P := finite) (Q := finite) (R := finite)).
  - intros Tc dS i HT HdS Hi. apply finite_div.
    + repeat apply finite_mul; auto using finite_neg.
    + simpl. intro H. vm_compute in H. discriminate.
  - now apply finite_T_cell with (n := n).
  - now apply finite_delta_S.
  - now apply finite_i_cell with (n := n).
Qed.

End Heat.

(** *** No current *)

Lemma finite_clamp_map (lo hi : Q) (a : vec) :
  (lo <= hi)%Q -> Forall (fun x => is_nan x = false) a ->
  Forall finite (map (clamp lo hi) a).
Proof.
  intros Hlh Ha. apply (Forall_map_impl (P := fun x => is_nan x = false)); [|exact Ha].
  intros x Hx. destruct (between_finite (clamp_between x Hlh Hx)) as [q [-> _]].
  exact Logic.I.
Qed.

Lemma finite_mul_inv (x y : npfloat) : finite (x * y) -> finite x /\ finite y.
Proof.
  destruct x as [| |a|], y as [| |c|]; simpl; try tauto;
    try (destruct (Qsign c); simpl; tauto);
    try (destruct (Qsign a); simpl; tauto).
Qed.

Section ZeroCurrent.

Variable b : Battery.
Variable n : Numerics.
Variable E0 : npfloat.
Hypothesis Hzero : Forall (fun i => feq i 0) (Inputs.current (inputs b)).
Hypothesis Hpar : PackConfig.parallel (pack_config b) <> 0%Z.
Hypothesis Harea : nonzero (Cell.electrode_area (cell b)).
Hypothesis HAs : finite (Cell.surface_area (cell b)).
Hypothesis HT : Forall (fun T' => is_nan T' = false) (cell_temperature b).
Hypothesis HS : Forall (fun r => is_nan r = false) (SOC_old0 b n E0).

Lemma zero_i_cell : Forall (fun i => feq i 0) (i_cell b).
Proof.
  unfold i_cell, I_cell0, I_bat.
  apply (Forall_map_impl (P := fun i => feq i 0)).
  - intros i Hi. now apply zero_div.
  - apply (Forall_map_impl (P := fun i => feq i 0)); [|exact Hzero].
    intros i Hi. apply zero_div; [now apply zero_neg | now apply nonzero_of_Z].
Qed.

Lemma zero_q_dot_joule : Forall (fun q => feq q 0) (q_dot_joule b).
Proof.
  unfold q_dot_joule. apply (Forall_map_impl (P := fun i => feq i 0)).
  - intros i Hi. apply zero_div.
    + simpl. apply zero_mul_l; [exact Hi|].
      apply finite_mul; [now apply zero_finite | exact Logic.I].
    + simpl. intro H. vm_compute in H. discriminate.
  - apply zero_i_cell.
Qed.

Lemma zero_q_dot_entropy : Forall (fun q => feq q 0) (q_dot_entropy b n E0).
Proof.
  unfold q_dot_entropy.
  apply (Forall_map3 (P := finite) (Q := finite) (R := fun i => feq i 0)).
  - intros Tc dS i HTc HdS Hi. apply zero_div.
    + apply zero_mul_r; [|exact Hi]. apply finite_mul; auto using finite_neg.
    + simpl. intro H. vm_compute in H. discriminate.
  - rewrite T_cell_eq. apply finite_clamp_map; [lra | exact HT].
  - unfold delta_S. apply (Forall_map_impl (P := finite)).
    + intros s Hs.
      repeat first [ apply finite_add | apply finite_mul | apply finite_pow
                   | exact Logic.I | exact Hs ].
    + rewrite SOC_old_eq. apply finite_clamp_map; [lra | exact HS].
  - apply zero_i_cell.
Qed.

Lemma zero_Q_heat_gen : Forall (fun q => feq q 0) (Q_heat_gen b n E0).
Proof.
  unfold Q_heat_gen.
  apply (Forall_map2 (P := fun q => feq q 0) (Q := fun q => feq q 0)).
  - intros j e Hj He. apply zero_mul_l; [now apply zero_add | exact HAs].
  - apply zero_q_dot_joule.
  - apply zero_q_dot_entropy.
Qed.

End ZeroCurrent.

(** X11. At zero current both heat fractions are nan at every collocation
    point, the quotient 0/0, while the resistive losses and the heat
    generated are zero: for a parallel count and an electrode area other than
    zero, a finite surface area, cell temperatures without nan and a
    provisional energy ratio without nan. *)
Theorem zero_current_gives_nan_heat_fractions
  (np_sqrt np_exp np_log : npfloat -> npfloat)
  (np_power : npfloat -> npfloat -> npfloat) (np_pi : npfloat)
  (odeint : (npfloat -> npfloat -> npfloat) -> npfloat -> vec -> vec)
  (Units_hr : npfloat) (b : Battery) (n : Numerics) (out : Battery) :
  LiNiMnCo_charge np_sqrt np_exp np_log np_power np_pi odeint Units_hr b n
  = Some out ->
  Forall (fun i => feq i 0) (Inputs.current (inputs b)) ->
  PackConfig.parallel (pack_config b) <> 0%Z ->
  nonzero (Cell.electrode_area (cell b)) ->
  finite (Cell.surface_area (cell b)) ->
  Forall (fun T' => is_nan T' = false) (cell_temperature b) ->
  (forall E0, first (current_energy b) = Some E0 ->
     Forall (fun r => is_nan r = false) (SOC_old0 b n E0)) ->
  all_nan (cell_joule_heat_fraction out) /\
  all_nan (cell_entropy_heat_fraction out) /\
  Forall (fun q => feq q 0) (resistive_losses out) /\
  Forall (fun q => feq q 0) (heat_energy_generated out) /\
  length (cell_joule_heat_fraction out) = length (resistive_losses out) /\
  length (cell_entropy_heat_fraction out) = length (resistive_losses out).
Proof.
  intros Hrun Hzero Hpar Harea HAs HT HS.
  destruct (@LiNiMnCo_charge_Some np_sqrt np_exp np_log np_power np_pi odeint
              Units_hr b n out Hrun)
    as (E0 & T0 & Q0 & V & HE & _ & _ & _ & ->).
  specialize (HS E0 HE).
  assert (Hj : Forall (fun q => feq q 0) (q_dot_joule b))
    by (apply zero_q_dot_joule; assumption).
  assert (He : Forall (fun q => feq q 0) (q_dot_entropy b n E0))
    by (apply zero_q_dot_entropy; assumption).
  assert (HQ : Forall (fun q => feq q 0) (Q_heat_gen b n E0))
    by (apply zero_Q_heat_gen; assumption).
  simpl. split; [|split; [|split; [|split; [|split]]]].
  - unfold q_joule_frac, all_nan.
    apply (Forall_map2 (P := fun q => feq q 0) (Q := fun q => feq q 0));
      try assumption.
    intros j e H1 H2. now destruct (fractions_of_zero j e H1 H2).
  - unfold q_entropy_frac, all_nan.
    apply (Forall_map2 (P := fun q => feq q 0) (Q := fun q => feq q 0));
      try assumption.
    intros j e H1 H2. now destruct (fractions_of_zero j e H1 H2).
  - unfold P_loss. apply (Forall_map_impl (P := fun q => feq q 0)); [|exact HQ].
    intros q Hq. apply zero_mul_r; [exact Logic.I | exact Hq].
  - apply (Forall_map_impl (P := fun q => feq q 0)); [|exact HQ].
    intros q Hq. apply zero_mul_l; [exact Hq | exact Logic.I].
  - unfold q_joule_frac, P_loss, Q_heat_gen. now rewrite length_map, !length_map2.
  - unfold q_entropy_frac, P_loss, Q_heat_gen. now rewrite length_map, !length_map2.
Qed.


(** ** Saturation of the state of charge *)

Lemma soc_of_energy_above (M e : npfloat) :
  positive M -> (e >? M) = true ->
  (if e >? M then M else e) = M /\
  feq (clamp 0 1 ((if e >? M then M else e) / M)) 1.
Proof.
  intros HM He. rewrite He. split; [reflexivity|].
  destruct M as [| |m|]; simpl in HM; try contradiction.
  assert (Hm0 : ~ (m == 0)%Q)
    by (intro E; rewrite E in HM; now apply Qlt_irrefl in HM).
  simpl. rewrite (nonzero_Qeq_bool Hm0).
  assert (E1 : (m / m == 1)%Q) by (field; exact Hm0).
  unfold clamp. simpl.
  assert (H1 : Qlt_bool (m / m) 0 = false) by (apply Qlt_bool_false; lra).
  rewrite H1. simpl.
  assert (H2 : Qlt_bool 1 (m / m) = false) by (apply Qlt_bool_false; lra).
  rewrite H2. exact E1.
Qed.

Lemma soc_of_energy_below (M e : npfloat) :
  positive M -> (e <? 0) = true ->
  (if e >? M then M else e) = e /\
  clamp 0 1 ((if e >? M then M else e) / M) = Fin 0.
Proof.
  intros HM He.
  destruct M as [| |m|]; simpl in HM; try contradiction.
  assert (Hm0 : ~ (m == 0)%Q)
    by (intro E; rewrite E in HM; now apply Qlt_irrefl in HM).
  destruct e as [| |a|]; simpl in He; try discriminate.
  - (* -inf *)
    split; [reflexivity|]. simpl.
    unfold Qsign. destruct m as [mn md]. unfold Qlt in HM. simpl in *.
    rewrite Z.mul_1_r in HM.
    destruct (Z.compare_spec mn 0); try lia. reflexivity.
  - apply Qlt_bool_true in He.
    assert (Hgt : (Fin a >? Fin m) = false)
      by (unfold fgtb; simpl; apply Qlt_bool_false; lra).
    rewrite Hgt. split; [reflexivity|].
    simpl. rewrite (nonzero_Qeq_bool Hm0). unfold clamp. simpl.
    assert (Hneg : (a / m < 0)%Q).
    { apply Qlt_shift_div_r; [exact HM | lra]. }
    assert (H1 : Qlt_bool (a / m) 0 = true) by now apply Qlt_bool_true.
    rewrite H1. reflexivity.
Qed.

(** X13. For a positive [max_energy]: where the summed energy exceeds
    [max_energy], the energy written is [max_energy] and the state of charge
    is 1; where the summed energy is negative, it is written as it is,
    negative, while the state of charge is 0. *)
Theorem state_of_charge_saturates
  (np_sqrt np_exp np_log : npfloat -> npfloat)
  (np_power : npfloat -> npfloat -> npfloat) (np_pi : npfloat)
  (odeint : (npfloat -> npfloat -> npfloat) -> npfloat -> vec -> vec)
  (Units_hr : npfloat) (b : Battery) (n : Numerics) (out : Battery) :
  LiNiMnCo_charge np_sqrt np_exp np_log np_power np_pi odeint Units_hr b n
  = Some out ->
  positive (max_energy b) ->
  exists E0, first (current_energy b) = Some E0 /\
    Forall2 (fun e c => ((e >? max_energy b) = true -> c = max_energy b) /\
                        ((e <? 0) = true -> c = e))
      (E_current_sum b n E0) (current_energy out) /\
    Forall2 (fun e s => ((e >? max_energy b) = true -> feq s 1) /\
                        ((e <? 0) = true -> s = Fin 0))
      (E_current_sum b n E0) (state_of_charge out).
Proof.
  intros Hrun HM.
  destruct (@LiNiMnCo_charge_Some np_sqrt np_exp np_log np_power np_pi odeint
              Units_hr b n out Hrun)
    as (E0 & T0 & Q0 & V & HE & _ & _ & _ & ->).
  exists E0. split; [exact HE|]. simpl. split.
  - unfold E_current, assign_where. apply Forall2_map_r. intros e. split.
    + intros H. now destruct (soc_of_energy_above (max_energy b) e HM H).
    + intros H. now destruct (soc_of_energy_below (max_energy b) e HM H).
  - rewrite SOC_new_eq. unfold SOC_new0, E_current, assign_where.
    rewrite !map_map. apply Forall2_map_r. intros e. split.
    + intros H. now destruct (soc_of_energy_above (max_energy b) e HM H).
    + intros H. now destruct (soc_of_energy_below (max_energy b) e HM H).
Qed.

(** ** The Thevenin voltage at the first collocation point *)

(** X14. The pack-level Thevenin voltage written at the first collocation
    point is the initial pack-level Thevenin voltage divided by the series
    count and multiplied by it again; for a series count other than zero and
    a finite initial voltage that is, in exact arithmetic, the initial
    voltage itself. *)
Theorem thevenin_voltage_starts_at_initial_value
  (np_sqrt np_exp np_log : npfloat -> npfloat)
  (np_power : npfloat -> npfloat -> npfloat) (np_pi : npfloat)
  (odeint : (npfloat -> npfloat -> npfloat) -> npfloat -> vec -> vec)
  (Units_hr : npfloat) (b : Battery) (n : Numerics) (out : Battery) :
  LiNiMnCo_charge np_sqrt np_exp np_log np_power np_pi odeint Units_hr b n
  = Some out ->
  PackConfig.series (pack_config b) <> 0%Z ->
  finite (initial_thevenin_voltage b) ->
  exists v, first (thevenin_voltage out) = Some v /\
    v = initial_thevenin_voltage b / of_Z (PackConfig.series (pack_config b))
        * of_Z (PackConfig.series (pack_config b)) /\
    feq v (initial_thevenin_voltage b).
Proof.
  intros Hrun Hs Hv.
  destruct (@LiNiMnCo_charge_Some np_sqrt np_exp np_log np_power np_pi odeint
              Units_hr b n out Hrun)
    as (E0 & T0 & Q0 & V & _ & _ & _ & HV & ->).
  unfold V_Th in HV.
  destruct (compute_thevenin_votlage_Some odeint (V_th0 b) (I_cell b)
              (C_Th np_exp b n E0) (R_Th np_exp b n E0) n HV)
    as (_ & _ & Hfirst).
  destruct V as [|v0 V]; [discriminate|]. injection Hfirst as ->.
  simpl. eexists. split; [reflexivity|]. split; [reflexivity|].
  unfold V_th0, n_series. destruct (initial_thevenin_voltage b) as [| |v|];
    simpl in Hv; try contradiction.
  pose proof (nonzero_of_Z Hs) as Hnz. simpl in Hnz.
  simpl. rewrite (nonzero_Qeq_bool Hnz). simpl. field. exact Hnz.
Qed.

(** ** The throughput of a segment *)

Lemma feq_add_zero (x : npfloat) : feq x (x + 0).
Proof. destruct x; simpl; try exact Logic.I. ring. Qed.

Lemma feq_refl (x : npfloat) : feq x x.
Proof. destruct x; simpl; try exact Logic.I. reflexivity. Qed.

(** X15. At every collocation point the cumulative throughput is the prior
    throughput [Q_prior[0]] plus the throughput of the segment, and the
    throughput of the segment starts at zero. *)
Theorem cumulative_throughput_is_prior_plus_segment
  (np_sqrt np_exp np_log : npfloat -> npfloat)
  (np_power : npfloat -> npfloat -> npfloat) (np_pi : npfloat)
  (odeint : (npfloat -> npfloat -> npfloat) -> npfloat -> vec -> vec)
  (Units_hr : npfloat) (b : Battery) (n : Numerics) (out : Battery) :
  LiNiMnCo_charge np_sqrt np_exp np_log np_power np_pi odeint Units_hr b n
  = Some out ->
  exists Q0, first (charge_throughput b) = Some Q0 /\
    first (cell_charge_throughput out) = Some (Fin 0) /\
    Forall2 (fun total segment => feq total (Q0 + segment))
      (cumulative_cell_charge_throughput out) (cell_charge_throughput out).
Proof.
  intros Hrun.
  destruct (@LiNiMnCo_charge_Some np_sqrt np_exp np_log np_power np_pi odeint
              Units_hr b n out Hrun)
    as (E0 & T0 & Q0 & V & _ & _ & HQ & _ & ->).
  exists Q0. split; [exact HQ|]. simpl. split; [reflexivity|].
  unfold Q_total, Q_segment. constructor; [apply feq_add_zero|].
  apply Forall2_map_mono with (R := eq).
  - intros a c <-. apply feq_refl.
  - induction (cumtrapz (I_cell b) (Time.control_points (time n)));
      constructor; auto.
Qed.

Lemma nonneg_div_pos (c hr : npfloat) :
  positive hr -> le_fin 0 c -> le_fin 0 (c / hr).
Proof.
  destruct hr as [| |h|], c; simpl; try contradiction. intros Hh Hc.
  assert (E : Qeq_bool h 0 = false).
  { apply nonzero_Qeq_bool. intro E. rewrite E in Hh. now apply Qlt_irrefl in Hh. }
  rewrite E. simpl. apply Qle_shift_div_l; lra.
Qed.

(** One trapezoid of a current within [0, 8] over a step that is not
    negative. *)
Lemma trapezoid_bounds (p k u w : Q) :
  (p <= k)%Q -> (0 <= u <= 8)%Q -> (0 <= w <= 8)%Q ->
  (0 <= (k + - p) * (w + u) / 2 <= 8 * (k + - p))%Q.
Proof.
  intros Hpk [Hu0 Hu8] [Hw0 Hw8].
  assert (Hd : (0 <= k + - p)%Q) by lra.
  assert (Hs0 : (0 <= w + u)%Q) by lra.
  assert (H1 : (0 <= (k + - p) * (w + u))%Q) by now apply Qmult_le_0_compat.
  assert (H2 : ((k + - p) * (w + u) <= (k + - p) * 16)%Q).
  { rewrite (Qmult_comm (k + - p) (w + u)), (Qmult_comm (k + - p) 16).
    apply Qmult_le_compat_r; lra. }
  split.
  - apply Qle_shift_div_l; lra.
  - apply Qle_shift_div_r; lra.
Qed.

Lemma bound_cumsum_from (t0 : Q) (ts : vec) :
  forall (ys : vec) (acc tprev yprev : npfloat),
  length ys = length ts ->
  increasing_times (tprev :: ts) ->
  Forall (between 0 8) (yprev :: ys) ->
  le_fin 0 acc -> le_fin acc (8 * (tprev - Fin t0)) ->
  Forall2 (fun c tk => le_fin 0 c /\ le_fin c (8 * (tk - Fin t0)))
    (cumsum_from acc
       (map (fun p => p / 2)
          (map2 fmul (diff (tprev :: ts)) (adjacent_sums (yprev :: ys)))))
    ts.
Proof.
  induction ts as [|tk ts IH]; intros ys acc tprev yprev Hlen [Hf Hs] Hy H0 Hacc.
  - simpl. constructor.
  - destruct ys as [|yk ys]; [discriminate|].
    change (diff (tprev :: tk :: ts)) with (fsub tk tprev :: diff (tk :: ts)).
    change (adjacent_sums (yprev :: yk :: ys))
      with (fadd yk yprev :: adjacent_sums (yk :: ys)).
    inversion Hf as [|? ? Hfp Hf']; subst.
    inversion Hs as [|? ? Hs' Hhd]; subst.
    inversion Hhd as [|? ? Hpk]; subst.
    inversion Hf' as [|? ? Hfk _]; subst.
    inversion Hy as [|? ? Hyp Hy']; subst.
    inversion Hy' as [|? ? Hyk _]; subst.
    apply (fle_le_fin Hfp Hfk) in Hpk.
    destruct (between_finite Hyp) as [u [-> Hu]].
    destruct (between_finite Hyk) as [w [-> Hw]].
    destruct tprev as [| |p|], tk as [| |k|], acc as [| |A|];
      simpl in Hpk, H0, Hacc; try contradiction.
    pose proof (trapezoid_bounds Hpk Hu Hw) as [Hx0 Hx8].
    simpl map2. simpl map. change (Qeq_bool 2 0) with false. simpl cumsum_from.
    constructor.
    + simpl. split; lra.
    + apply IH.
      * simpl in Hlen. lia.
      * split; assumption.
      * exact Hy'.
      * simpl. lra.
      * simpl. lra.
Qed.

Lemma steps_increasing (t : vec) :
  Forall finite t -> Forall (le_fin 0) (diff t) -> increasing_times t.
Proof.
  intros Hf Hd. split; [exact Hf|].
  induction t as [|a t IH]; [constructor|].
  inversion Hf as [|? ? Ha Hf']; subst.
  destruct t as [|c t]; [repeat constructor|].
  change (diff (a :: c :: t)) with (fsub c a :: diff (c :: t)) in Hd.
  inversion Hd as [|? ? Hac Hd']; subst.
  constructor; [now apply IH|]. constructor.
  apply le_fin_fle. destruct a, c; simpl in *; try contradiction. lra.
Qed.

(** X16. With a cell current [-I_bat/n_parallel] without nan, finite control
    points (as many as current samples) whose steps [np.diff] are finite and
    not negative, and a positive [Units.hr], the throughput of the segment is
    never negative and, in exact arithmetic, at each collocation point at
    most 8 A times the time elapsed since the first control point, in units
    of [Units.hr]. *)
Theorem segment_throughput_bounded
  (np_sqrt np_exp np_log : npfloat -> npfloat)
  (np_power : npfloat -> npfloat -> npfloat) (np_pi : npfloat)
  (odeint : (npfloat -> npfloat -> npfloat) -> npfloat -> vec -> vec)
  (Units_hr : npfloat) (b : Battery) (n : Numerics) (out : Battery) :
  LiNiMnCo_charge np_sqrt np_exp np_log np_power np_pi odeint Units_hr b n
  = Some out ->
  Forall (fun i => is_nan i = false) (I_cell0 b) ->
  Forall finite (Time.control_points (time n)) ->
  Forall (le_fin 0) (diff (Time.control_points (time n))) ->
  positive Units_hr ->
  length (Inputs.current (inputs b)) = length (Time.control_points (time n)) ->
  exists t0, first (Time.control_points (time n)) = Some t0 /\
    Forall2 (fun q tk => le_fin 0 q /\ le_fin q (8 * (tk - t0) / Units_hr))
      (cell_charge_throughput out) (Time.control_points (time n)).
Proof.
  intros Hrun HI Hfin Hsteps Hhr Hlen.
  pose proof (steps_increasing Hfin Hsteps) as Ht.
  destruct (@LiNiMnCo_charge_Some np_sqrt np_exp np_log np_power np_pi odeint
              Units_hr b n out Hrun)
    as (E0 & T0 & Q0 & V & _ & _ & _ & HV & ->).
  pose proof (limited_I_cell b HI) as Hlim.
  assert (HlenI : length (I_cell b) = length (Time.control_points (time n))).
  { rewrite length_I_cell. exact Hlen. }
  simpl. unfold Q_segment.
  unfold V_Th, compute_thevenin_votlage in HV.
  destruct (Time.control_points (time n)) as [|t0 ts] eqn:Et; [discriminate|].
  exists t0. split; [reflexivity|].
  destruct (I_cell b) as [|y0 ys]; [discriminate|].
  destruct Ht as [Hf Hs].
  inversion Hf as [|? ? Hf0 Hf']; subst.
  destruct t0 as [| |a|]; simpl in Hf0; try contradiction.
  assert (Hhr0 : exists h, Units_hr = Fin h /\ (0 < h)%Q).
  { destruct Units_hr; simpl in Hhr; try contradiction. now eexists. }
  destruct Hhr0 as [h [Eh Hh]].
  assert (Hh0 : Qeq_bool h 0 = false).
  { apply nonzero_Qeq_bool. intro E. rewrite E in Hh. now apply Qlt_irrefl in Hh. }
  constructor.
  - rewrite Eh. simpl. rewrite Hh0. simpl. split; [lra|].
    apply Qle_shift_div_l; lra.
  - assert (Hmain :
      Forall2 (fun c tk => le_fin 0 c /\ le_fin c (8 * (tk - Fin a)))
        (cumtrapz (y0 :: ys) (Fin a :: ts)) ts).
    { unfold cumtrapz. destruct ts as [|t1 ts].
      - simpl. constructor.
      - destruct ys as [|y1 ys]; [discriminate|].
        change (diff (Fin a :: t1 :: ts)) with (fsub t1 (Fin a) :: diff (t1 :: ts)).
        change (adjacent_sums (y0 :: y1 :: ys))
          with (fadd y1 y0 :: adjacent_sums (y1 :: ys)).
        inversion Hs as [|? ? Hs' Hhd]; subst.
        inversion Hhd as [|? ? Ha1]; subst.
        inversion Hf' as [|? ? Hf1 _]; subst.
        inversion Hlim as [|? ? Hy0 Hlim']; subst.
        inversion Hlim' as [|? ? Hy1 _]; subst.
        apply (@fle_le_fin (Fin a) t1 Logic.I Hf1) in Ha1.
        destruct (between_finite Hy0) as [u [-> Hu]].
        destruct (between_finite Hy1) as [w [-> Hw]].
        destruct t1 as [| |k|]; simpl in Ha1; try contradiction.
        pose proof (trapezoid_bounds Ha1 Hu Hw) as [Hx0 Hx8].
        simpl map2. simpl map. change (Qeq_bool 2 0) with false. simpl cumsum.
        constructor.
        + simpl. split; lra.
        + apply bound_cumsum_from.
          * simpl in HlenI. lia.
          * split; assumption.
          * exact Hlim'.
          * simpl. lra.
          * simpl. lra. }
    clear -Hmain Hhr.
    induction Hmain as [|c tk cs tks [Hc0 Hc8] _ IH]; simpl; constructor.
    + split; [now apply nonneg_div_pos | now apply le_fin_div_pos].
    + exact IH.
Qed.

(** ** Equilibrium and continuity *)

Lemma zero_fold_add (l : vec) (acc : npfloat) :
  feq acc 0 -> Forall (fun x => feq x 0) l -> feq (fold_left fadd l acc) 0.
Proof.
  intros Hacc Hl. revert acc Hacc.
  induction Hl as [|x l Hx Hl IH]; intros acc Hacc; simpl.
  - exact Hacc.
  - apply IH. now apply zero_add.
Qed.

Lemma zero_dot_row_r (r v : vec) :
  Forall finite r -> Forall (fun x => feq x 0) v -> feq (dot_row r v) 0.
Proof.
  intros Hr Hv. unfold dot_row. apply zero_fold_add; [reflexivity|].
  apply (Forall_map2 (P := finite) (Q := fun x => feq x 0)); auto using zero_mul_r.
Qed.

Lemma zero_dot_row_l (r v : vec) :
  Forall (fun x => feq x 0) r -> Forall finite v -> feq (dot_row r v) 0.
Proof.
  intros Hr Hv. unfold dot_row. apply zero_fold_add; [reflexivity|].
  apply (Forall_map2 (P := fun x => feq x 0) (Q := finite)); auto using zero_mul_l.
Qed.

Lemma feq_add_zero_r (x d : npfloat) : feq d 0 -> feq (x + d) x.
Proof.
  destruct x, d; simpl; try tauto. intros H. rewrite H. ring.
Qed.

Lemma feq_add_zero_l (x d : npfloat) : feq d 0 -> feq (d + x) x.
Proof.
  destruct x, d; simpl; try tauto. intros H. rewrite H. ring.
Qed.

Lemma zero_sub_self (x : npfloat) : finite x -> feq (x - x) 0.
Proof. destruct x; simpl; try tauto. intros _. ring. Qed.

Lemma Forall_map2_same {A C : Type} (Pa : A -> Prop) (R : C -> Prop)
  (f : A -> A -> C) (l : list A) :
  (forall a, Pa a -> R (f a a)) -> Forall Pa l -> Forall R (map2 f l l).
Proof.
  intros Hf. induction 1; simpl; constructor; auto.
Qed.

(** X19. Thermal equilibrium of a single cell: with no current, a cell
    temperature without nan and equal, once limited, to the ambient
    temperature at every collocation point, a provisional energy ratio
    without nan, an electrode area other than zero, a finite product
    [h*As_cell], a thermal mass [cell_mass*n_total_module*Cp] other than zero
    and finite integration weights, the temperature written stays at the
    prior temperature [T_current[0]] at every collocation point. *)
Theorem single_cell_at_ambient_stays_there
  (np_sqrt np_exp np_log : npfloat -> npfloat)
  (np_power : npfloat -> npfloat -> npfloat) (np_pi : npfloat)
  (odeint : (npfloat -> npfloat -> npfloat) -> npfloat -> vec -> vec)
  (Units_hr : npfloat) (b : Battery) (n : Numerics) (out : Battery) :
  LiNiMnCo_charge np_sqrt np_exp np_log np_power np_pi odeint Units_hr b n
  = Some out ->
  Forall (fun i => feq i 0) (Inputs.current (inputs b)) ->
  n_total b = 1%Z ->
  nonzero (Cell.electrode_area (cell b)) ->
  Forall (fun T' => is_nan T' = false) (cell_temperature b) ->
  T_cell b = ambient_temperature b ->
  (forall E0, first (current_energy b) = Some E0 ->
     Forall (fun r => is_nan r = false) (SOC_old0 b n E0)) ->
  finite (heat_transfer_coefficient b * As_cell b) ->
  nonzero (cell_mass b * of_Z (n_total_module b) * Cp b) ->
  Forall (Forall finite) (Time.integrate (time n)) ->
  exists T0, first (temperature b) = Some T0 /\
    Forall (fun T' => feq T' T0) (cell_temperature out) /\
    Forall (fun T' => feq T' T0) (pack_temperature out) /\
    length (cell_temperature out) = length (Time.integrate (time n)).
Proof.
  intros Hrun Hzero Hone Harea HTc Heq HS HhAs Hmass HI.
  destruct (@LiNiMnCo_charge_Some np_sqrt np_exp np_log np_power np_pi odeint
              Units_hr b n out Hrun)
    as (E0 & T0 & Q0 & V & HE & HT & _ & _ & ->).
  specialize (HS E0 HE).
  assert (Hpar : PackConfig.parallel (pack_config b) <> 0%Z).
  { intros E. unfold n_total, n_series, n_parallel in Hone. rewrite E in Hone. lia. }
  destruct (finite_mul_inv _ _ HhAs) as [_ HAs].
  assert (HT' : Forall (fun T' => feq T' T0)
                  (T_current_new np_sqrt np_exp np_log np_power np_pi b n E0 T0)).
  { unfold T_current_new.
    apply (Forall_map_impl (P := fun d => feq d 0)).
    - intros d Hd. now apply feq_add_zero_r.
    - unfold dot. apply (Forall_map_impl (P := Forall finite)).
      + intros r Hr. apply zero_dot_row_r; [exact Hr|].
        unfold dT_dt, P_net. rewrite Hone. simpl.
        apply (Forall_map_impl (P := fun d => feq d 0)).
        * intros p Hp. now apply zero_div.
        * unfold P_net_lumped.
          apply (Forall_map_impl (P := fun d => feq d 0)).
          -- intros p Hp. apply zero_mul_l; [exact Hp | exact Logic.I].
          -- apply (Forall_map2 (P := fun d => feq d 0) (Q := fun d => feq d 0)).
             ++ intros q c Hq Hc. destruct q, c; simpl in *; try tauto.
                rewrite Hq, Hc. reflexivity.
             ++ now apply zero_Q_heat_gen.
             ++ unfold T_ambient. rewrite <- Heq.
                apply (Forall_map2_same (Pa := finite)).
                ** intros Tc HTc'. apply zero_mul_r; [exact HhAs|].
                   now apply zero_sub_self.
                ** rewrite T_cell_eq. apply finite_clamp_map; [lra | exact HTc].
      + exact HI. }
  exists T0. split; [exact HT|]. simpl. split; [exact HT'|]. split; [exact HT'|].
  unfold T_current_new, dot, I. now rewrite !length_map.
Qed.

(** X20. Continuity at the start of a segment: with a first row of the
    integration operator that is zero, a net power [P_bat - |P_loss|] that is
    finite as computed, an energy integral [np.dot(I,P)] without nan and a
    prior energy [E_current[0]] of at most [max_energy], the energy written
    at the first collocation point is the prior energy. *)
Theorem energy_is_continuous_at_segment_start
  (np_sqrt np_exp np_log : npfloat -> npfloat)
  (np_power : npfloat -> npfloat -> npfloat) (np_pi : npfloat)
  (odeint : (npfloat -> npfloat -> npfloat) -> npfloat -> vec -> vec)
  (Units_hr : npfloat) (b : Battery) (n : Numerics) (out : Battery)
  (row0 : vec) (rows : list vec) :
  LiNiMnCo_charge np_sqrt np_exp np_log np_power np_pi odeint Units_hr b n
  = Some out ->
  Time.integrate (time n) = row0 :: rows ->
  Forall (fun w => feq w 0) row0 ->
  (exists E0, first (current_energy b) = Some E0 /\
     le_fin E0 (max_energy b) /\
     Forall finite (P b n E0) /\
     isnan_any (E_bat0 b n E0) = false) ->
  exists E0 e, first (current_energy b) = Some E0 /\
    first (current_energy out) = Some e /\ feq e E0.
Proof.
  intros Hrun HI Hrow0 (E0' & HE' & Hle & HP & Hnan).
  destruct (@LiNiMnCo_charge_Some np_sqrt np_exp np_log np_power np_pi odeint
              Units_hr b n out Hrun)
    as (E0 & T0 & Q0 & V & HE & _ & _ & _ & ->).
  rewrite HE in HE'. injection HE' as <-.
  exists E0. simpl. unfold E_current, assign_where, E_current_sum, E_bat.
  rewrite (sanitize_keeps_finite _ Hnan).
  unfold E_bat0, dot, I. rewrite HI. simpl.
  pose proof (zero_dot_row_l Hrow0 HP) as Hz.
  set (d := dot_row row0 (P b n E0)) in *.
  eexists. split; [exact HE|]. split; [reflexivity|].
  destruct d as [| |q|]; simpl in Hz; try contradiction.
  unfold E_max.
  destruct E0 as [| |a|], (max_energy b) as [| |m|]; simpl in Hle; try contradiction.
  unfold fgtb. simpl.
  destruct (Qlt_bool m (q + a)) eqn:E.
  - apply Qlt_bool_true in E. rewrite Hz in E. simpl. lra.
  - simpl. rewrite Hz. ring.
Qed.

(** ** The checks of the regression scripts *)

(** X17. For a positive reference value, the check of a computed value
    against it passes exactly when the computed value is finite and differs
    from the reference by less than a thousandth of the reference. *)
Theorem reference_check_is_relative_tolerance (x : npfloat) (r : Q) :
  (0 < r)%Q ->
  reference_check x (Fin r) = true <->
  exists q, x = Fin q /\ (Qabs (q - r) < r / 1000)%Q.
Proof.
  intros Hr.
  assert (Hr0 : ~ (r == 0)%Q)
    by (intro E; rewrite E in Hr; now apply Qlt_irrefl in Hr).
  unfold reference_check. destruct x as [| |q|]; simpl.
  - split; [discriminate | intros [q' [Hx _]]; discriminate].
  - unfold Qsign. destruct r as [rn rd]. unfold Qlt in Hr. simpl in *.
    rewrite Z.mul_1_r in Hr. destruct (Z.compare_spec rn 0); try lia.
    simpl. split; [discriminate | intros [q' [Hx _]]; discriminate].
  - rewrite (nonzero_Qeq_bool Hr0). simpl. rewrite Qlt_bool_true.
    assert (E : (Qabs ((q + - r) / r) == Qabs (q - r) / r)%Q).
    { unfold Qdiv. rewrite Qabs_Qmult.
      rewrite (Qabs_pos (/ r)); [reflexivity|].
      apply Qlt_le_weak. now apply Qinv_lt_0_compat. }
    rewrite E. change (1e-3)%Q with (1 # 1000)%Q.
    assert (Hiff : (Qabs (q - r) / r < 1 # 1000 <-> Qabs (q - r) < r / 1000)%Q).
    { assert (Ediv : (r / 1000 == (1 # 1000) * r)%Q) by field.
      rewrite Ediv. split; intros H.
      - assert (H' : (Qabs (q - r) / r * r < (1 # 1000) * r)%Q)
          by (apply Qmult_lt_r; assumption).
        setoid_replace (Qabs (q - r) / r * r)%Q with (Qabs (q - r))
          in H' by (field; exact Hr0).
        exact H'.
      - apply Qlt_shift_div_r; [exact Hr | exact H]. }
    rewrite Hiff. split.
    + intros H. now exists q.
    + intros [q' [Hq H]]. injection Hq as <-. exact H.
  - unfold Qsign. destruct r as [rn rd]. unfold Qlt in Hr. simpl in *.
    rewrite Z.mul_1_r in Hr. destruct (Z.compare_spec rn 0); try lia.
    simpl. split; [discriminate | intros [q' [Hx _]]; discriminate].
Qed.

Lemma Qabs_positive (q : Q) : ~ (q == 0)%Q -> (0 < Qabs q)%Q.
Proof.
  intros Hq. destruct (Qlt_le_dec 0 (Qabs q)) as [H|H]; [exact H|].
  exfalso. pose proof (Qabs_nonneg q) as H0.
  assert (E : (Qabs q == 0)%Q) by lra.
  revert E. apply Qabs_case; intros; apply Hq; lra.
Qed.

(** One entry of the energy check. *)
Lemma energy_entry_check (x : npfloat) (r : Q) :
  (fabs ((x - Fin r) / x) <? 1e-3) = true <->
  exists q, x = Fin q /\ (Qabs (q - r) < Qabs q / 1000)%Q.
Proof.
  destruct x as [| |q|].
  - simpl. split; [discriminate | intros [q' [Hx _]]; discriminate].
  - simpl. split; [discriminate | intros [q' [Hx _]]; discriminate].
  - cbv beta iota delta [fsub fneg fadd fdiv].
    destruct (Qeq_bool q 0) eqn:E0.
    + apply Qeq_bool_eq in E0. split.
      * intros H. exfalso. unfold Qsign in H.
        destruct (Qnum (q + - r) ?= 0)%Z; simpl in H; discriminate.
      * intros [q' [Hx H]]. injection Hx as <-. exfalso.
        pose proof (Qabs_nonneg (q - r)).
        assert (Ez : (Qabs q == 0)%Q) by (rewrite E0; reflexivity).
        assert (Ed : (Qabs q / 1000 == 0)%Q) by (rewrite Ez; reflexivity).
        rewrite Ed in H. lra.
    + apply Qeq_bool_neq in E0. cbv beta iota delta [fabs fltb].
      rewrite Qlt_bool_true.
      pose proof (Qabs_positive E0) as Hpos.
      assert (Hpos0 : ~ (Qabs q == 0)%Q) by lra.
      assert (E : (Qabs ((q + - r) / q) == Qabs (q - r) / Qabs q)%Q).
      { unfold Qdiv. rewrite Qabs_Qmult, Qabs_Qinv. reflexivity. }
      rewrite E. change (1e-3)%Q with (1 # 1000)%Q.
      assert (Ediv : (Qabs q / 1000 == (1 # 1000) * Qabs q)%Q) by field.
      split.
      * intros H. exists q. split; [reflexivity|]. rewrite Ediv.
        assert (H' : (Qabs (q - r) / Qabs q * Qabs q < (1 # 1000) * Qabs q)%Q)
          by (apply Qmult_lt_r; assumption).
        setoid_replace (Qabs (q - r) / Qabs q * Qabs q)%Q with (Qabs (q - r))
          in H' by (field; exact Hpos0).
        exact H'.
      * intros [q' [Hx H]]. injection Hx as <-. rewrite Ediv in H.
        apply Qlt_shift_div_r; [exact Hpos | exact H].
  - simpl. split; [discriminate | intros [q' [Hx _]]; discriminate].
Qed.

(** X18. For finite reference values (as many as computed ones), the check
    of the battery energy passes exactly when every computed energy is finite
    and differs from its reference by less than a thousandth of the computed
    value: a nan or a zero energy fails it. *)
Theorem battery_energy_check_is_relative_tolerance (e ref : vec) :
  Forall finite ref -> length e = length ref ->
  battery_energy_check e ref = true <->
  Forall2 (fun x t => exists q r, x = Fin q /\ t = Fin r /\
                        (Qabs (q - r) < Qabs q / 1000)%Q) e ref.
Proof.
  intros Hf. revert e. unfold battery_energy_check.
  induction Hf as [|t ref Ht Hf IH]; intros e Hlen.
  - destruct e; [|discriminate]. simpl. split; [constructor | reflexivity].
  - destruct e as [|x e]; [discriminate|]. simpl in Hlen.
    destruct t as [| |r|]; simpl in Ht; try contradiction.
    change (map2 fdiv (map2 fsub (x :: e) (Fin r :: ref)) (x :: e))
      with (((x - Fin r) / x) :: map2 fdiv (map2 fsub e ref) e).
    simpl forallb. rewrite andb_true_iff, energy_entry_check, IH by lia.
    split.
    + intros [[q [-> Hq]] Hrest]. constructor; [|exact Hrest].
      now exists q, r.
    + intros H. inversion H as [|? ? ? ? [q [r' [-> [Hr Hq]]]] Hrest]; subst.
      injection Hr as <-. split; [now exists q | exact Hrest].
Qed.

(** ** Runs that satisfy the hypotheses of the further properties *)

Lemma charging_shaped : well_shaped charging segment.
Proof. unfold well_shaped. simpl. repeat split; repeat constructor. Qed.

Lemma nan_power_shaped : well_shaped nan_power segment.
Proof. unfold well_shaped. simpl. repeat split; repeat constructor. Qed.

Lemma segment_weights : Forall (Forall (le_fin 0)) (Time.integrate (time segment)).
Proof. simpl. repeat constructor; vm_compute; discriminate. Qed.

Lemma model_relaxes_to_IR_witness :
  feq (model (1 * 1) 0 1 1 1) 0 /\
  (positive (1 * 1 - 0) -> positive (model 0 0 1 1 1)) /\
  (positive (0 - 1 * 1) -> positive (- model 0 0 1 1 1)).
Proof.
  apply (@model_relaxes_to_IR 0 0 1 1 1);
    first [ exact Logic.I | vm_compute; reflexivity ].
Defined.

Lemma compute_thevenin_votlage_shape_witness :
  Time.control_points (time rc_times) <> [] /\
  length [Fin 0; nth 1 rc_solution NaN; nth 1 rc_solution NaN]
  = length (Time.control_points (time rc_times)) /\
  first [Fin 0; nth 1 rc_solution NaN; nth 1 rc_solution NaN] = Some (Fin 0).
Proof.
  apply (@compute_thevenin_votlage_shape (odeint_euler 10) 0 rc_ones rc_ones
           rc_ones rc_times).
  vm_compute. reflexivity.
Defined.


Lemma empty_prior_state_raises_witness :
  run (with_current_energy [] charging) segment = None.
Proof.
  apply (@empty_prior_state_raises undefined1 exp_series undefined1 undefined2
           NaN (odeint_euler 50) hr (with_current_energy [] charging) segment).
  left. reflexivity.
Defined.

Lemma only_first_entries_of_prior_state_witness :
  run (with_current_energy [Fin 20000; Fin 1; Fin 2] charging) segment
  = run (with_current_energy [Fin 20000] charging) segment /\
  option_map (with_charge_throughput [])
    (run (with_charge_throughput [Fin 0; Fin 7] charging) segment)
  = option_map (with_charge_throughput [])
      (run (with_charge_throughput [Fin 0] charging) segment).
Proof.
  apply (@only_first_entries_of_prior_state undefined1 exp_series undefined1
           undefined2 NaN (odeint_euler 50) hr charging segment
           [Fin 20000; Fin 1; Fin 2] [Fin 20000] [Fin 0; Fin 7] [Fin 0]);
    reflexivity.
Defined.

Lemma outputs_have_one_entry_per_control_point_witness :
  length (current_energy charging_out) = 3%nat /\
  length (state_of_charge charging_out) = 3%nat /\
  length (depth_of_discharge charging_out) = 3%nat /\
  length (cell_temperature charging_out) = 3%nat /\
  length (pack_temperature charging_out) = 3%nat /\
  length (cell_current charging_out) = 3%nat /\
  length (thevenin_voltage charging_out) = 3%nat /\
  length (cumulative_cell_charge_throughput charging_out) = 3%nat /\
  length (cell_charge_throughput charging_out) = 3%nat.
Proof.
  exact (@outputs_have_one_entry_per_control_point undefined1 exp_series
           undefined1 undefined2 NaN (odeint_euler 50) hr charging segment
           charging_out charging_run charging_shaped).
Defined.

Lemma nan_power_spoils_the_segment_witness :
  In NaN (Inputs.power_in (inputs nan_power)) /\
  all_nan (current_energy nan_power_out) /\
  all_nan (state_of_charge nan_power_out) /\
  all_nan (depth_of_discharge nan_power_out) /\
  current_energy nan_power_out <> [].
Proof.
  assert (H : In NaN (Inputs.power_in (inputs nan_power)))
    by (simpl; right; left; reflexivity).
  split; [exact H|].
  exact (@nan_power_spoils_the_segment undefined1 exp_series undefined1
           undefined2 NaN (odeint_euler 50) hr nan_power segment nan_power_out
           nan_power_run nan_power_shaped H).
Defined.


Lemma zero_current_gives_nan_heat_fractions_witness :
  all_nan (cell_joule_heat_fraction draining_out) /\
  all_nan (cell_entropy_heat_fraction draining_out) /\
  Forall (fun q => feq q 0) (resistive_losses draining_out) /\
  Forall (fun q => feq q 0) (heat_energy_generated draining_out) /\
  length (cell_joule_heat_fraction draining_out)
  = length (resistive_losses draining_out) /\
  length (cell_entropy_heat_fraction draining_out)
  = length (resistive_losses draining_out).
Proof.
  apply (@zero_current_gives_nan_heat_fractions undefined1 exp_series undefined1
           undefined2 NaN (odeint_euler 50) hr draining segment draining_out
           draining_run).
  - simpl. repeat constructor.
  - simpl. discriminate.
  - simpl. intro H. vm_compute in H. discriminate.
  - exact Logic.I.
  - simpl. repeat constructor.
  - intros E0 HE. injection HE as <-. vm_compute. repeat constructor.
Defined.


Lemma state_of_charge_saturates_witness :
  exists E0, first (current_energy charging) = Some E0 /\
    Forall2 (fun e c => ((e >? max_energy charging) = true -> c = max_energy charging) /\
                        ((e <? 0) = true -> c = e))
      (E_current_sum charging segment E0) (current_energy charging_out) /\
    Forall2 (fun e s => ((e >? max_energy charging) = true -> feq s 1) /\
                        ((e <? 0) = true -> s = Fin 0))
      (E_current_sum charging segment E0) (state_of_charge charging_out).
Proof.
  apply (@state_of_charge_saturates undefined1 exp_series undefined1
           undefined2 NaN (odeint_euler 50) hr charging segment charging_out
           charging_run).
  vm_compute. reflexivity.
Defined.

Lemma thevenin_voltage_starts_at_initial_value_witness :
  PackConfig.series (pack_config series_of_three) = 3%Z /\
  initial_thevenin_voltage series_of_three = Fin 0.3 /\
  exists v, first (thevenin_voltage series_of_three_out) = Some v /\
    v = initial_thevenin_voltage series_of_three
        / of_Z (PackConfig.series (pack_config series_of_three))
        * of_Z (PackConfig.series (pack_config series_of_three)) /\
    feq v (initial_thevenin_voltage series_of_three).
Proof.
  split; [reflexivity|]. split; [reflexivity|].
  apply (@thevenin_voltage_starts_at_initial_value undefined1 exp_series
           undefined1 undefined2 NaN (odeint_euler 50) hr series_of_three
           segment series_of_three_out series_of_three_run).
  - simpl. discriminate.
  - exact Logic.I.
Defined.

Lemma cumulative_throughput_is_prior_plus_segment_witness :
  exists Q0, first (charge_throughput charging) = Some Q0 /\
    first (cell_charge_throughput charging_out) = Some (Fin 0) /\
    Forall2 (fun total segment => feq total (Q0 + segment))
      (cumulative_cell_charge_throughput charging_out)
      (cell_charge_throughput charging_out).
Proof.
  exact (@cumulative_throughput_is_prior_plus_segment undefined1 exp_series
           undefined1 undefined2 NaN (odeint_euler 50) hr charging segment
           charging_out charging_run).
Defined.

Lemma segment_throughput_bounded_witness :
  exists t0, first (Time.control_points (time segment)) = Some t0 /\
    Forall2 (fun q tk => le_fin 0 q /\ le_fin q (8 * (tk - t0) / hr))
      (cell_charge_throughput charging_out) (Time.control_points (time segment)).
Proof.
  apply (@segment_throughput_bounded undefined1 exp_series undefined1
           undefined2 NaN (odeint_euler 50) hr charging segment charging_out
           charging_run).
  - vm_compute. repeat constructor.
  - simpl. repeat constructor.
  - exact (nonneg_diff charging_times).
  - vm_compute. reflexivity.
  - reflexivity.
Defined.

Lemma reference_check_is_relative_tolerance_witness :
  reference_check 2377 2376.524545784301 = true <->
  exists q, Fin 2377 = Fin q /\
    (Qabs (q - 2376.524545784301) < 2376.524545784301 / 1000)%Q.
Proof.
  apply (@reference_check_is_relative_tolerance 2377 2376.524545784301).
  reflexivity.
Defined.

Lemma battery_energy_check_is_relative_tolerance_witness :
  battery_energy_check [Fin 321720000; Fin 321641000]
    [Fin 321720029; Fin 321641741] = true <->
  Forall2 (fun x t => exists q r, x = Fin q /\ t = Fin r /\
                        (Qabs (q - r) < Qabs q / 1000)%Q)
    [Fin 321720000; Fin 321641000] [Fin 321720029; Fin 321641741].
Proof.
  apply (@battery_energy_check_is_relative_tolerance
           [Fin 321720000; Fin 321641000] [Fin 321720029; Fin 321641741]).
  - repeat constructor.
  - reflexivity.
Defined.

Lemma single_cell_at_ambient_stays_there_witness :
  exists T0, first (temperature draining) = Some T0 /\
    Forall (fun T' => feq T' T0) (cell_temperature draining_out) /\
    Forall (fun T' => feq T' T0) (pack_temperature draining_out) /\
    length (cell_temperature draining_out)
    = length (Time.integrate (time segment)).
Proof.
  apply (@single_cell_at_ambient_stays_there undefined1 exp_series undefined1
           undefined2 NaN (odeint_euler 50) hr draining segment draining_out
           draining_run).
  - simpl. repeat constructor.
  - reflexivity.
  - simpl. intro H. vm_compute in H. discriminate.
  - simpl. repeat constructor.
  - vm_compute. reflexivity.
  - intros E0 HE. injection HE as <-. vm_compute. repeat constructor.
  - exact Logic.I.
  - simpl. intro H. vm_compute in H. discriminate.
  - simpl. repeat constructor.
Defined.

Lemma energy_is_continuous_at_segment_start_witness :
  exists E0 e, first (current_energy charging) = Some E0 /\
    first (current_energy charging_out) = Some e /\ feq e E0.
Proof.
  apply (@energy_is_continuous_at_segment_start undefined1 exp_series undefined1
           undefined2 NaN (odeint_euler 50) hr charging segment charging_out
           [Fin 0; Fin 0; Fin 0]
           [[Fin 250; Fin 250; Fin 0]; [Fin 250; Fin 500; Fin 250]]
           charging_run).
  - reflexivity.
  - repeat constructor.
  - exists (Fin 20000). split; [reflexivity|].
    split; [vm_compute; discriminate|].
    split; [vm_compute; repeat constructor | vm_compute; reflexivity].
Defined.
